(** * Recepten-app: the list normaliser and the SQLite store of [app.py]

    A shallow embedding of the pure helpers ([_split_csv],
    [_dedupe_keep_order], [render_badges_csv], [get_all_likers]) and of the
    database functions ([init_db], [add_recipe], [update_recipe],
    [get_recipes], [delete_recipe], [log_meal], [get_meal_stats],
    [export_table]) together with the button handlers ("Opslaan", "Log
    eetmoment", "Opslaan wijzigingen", "Verwijder recept"); the properties
    the specification states about them, and further properties of the
    code. *)

From Stdlib Require Import ZArith NArith List Ascii String Sorted Permutation Lia.
From stdpp Require Import base decidable gmap sets option lexico sorting list.

Local Open Scope N_scope.

(** ** Python strings

    A Python [str] is a sequence of Unicode code points.  A code point is
    an [N]; the characters the program names are constants below. *)

Abbreviation char := N (only parsing).
Abbreviation str := (list N) (only parsing).

Module PyStr.

(** An ASCII literal as a [str]: every character becomes its code point. *)
Definition py (s : string) : str :=
  (fun a : ascii => N_of_ascii a) <$> list_ascii_of_string s.

Definition comma : char := 44.
Definition space : char := 32.

(** [str.isspace] for one code point: the code points CPython's
    [_PyUnicode_IsWhitespace] accepts, which are the ones [str.strip()]
    removes. *)
Definition isspace (c : char) : bool :=
  ((9 <=? c) && (c <=? 13)) || ((28 <=? c) && (c <=? 32))
  || (c =? 133) || (c =? 160) || (c =? 5760)
  || ((8192 <=? c) && (c <=? 8202))
  || (c =? 8232) || (c =? 8233) || (c =? 8239) || (c =? 8287)
  || (c =? 12288).

(** [str.lstrip()], [str.rstrip()] and [str.strip()] without argument. *)
Fixpoint lstrip (s : str) : str :=
  match s with
  | c :: s' => if isspace c then lstrip s' else s
  | [] => []
  end.

Definition rstrip (s : str) : str := rev (lstrip (rev s)).

Definition strip (s : str) : str := rstrip (lstrip s).

(** [s.split(sep)] for a one-character separator: always at least one
    piece, and [n] separators give [n + 1] pieces. *)
Fixpoint split (sep : char) (s : str) : list str :=
  match s with
  | [] => [[]]
  | c :: s' =>
      if c =? sep then [] :: split sep s'
      else match split sep s' with
           | p :: ps => (c :: p) :: ps
           | [] => [[c]]
           end
  end.

(** [sep.join(items)]. *)
Fixpoint join (sep : str) (items : list str) : str :=
  match items with
  | [] => []
  | [x] => x
  | x :: rest => x ++ sep ++ join sep rest
  end.

(** Truthiness of a string: [if s:] holds for the non-empty ones. *)
Definition truthy (s : str) : Prop := s ≠ [].

#[global] Instance truthy_dec s : Decision (truthy s).
Proof. unfold truthy. apply _. Defined.

(** [x or s] with [s] the empty string, for a value [x] that is [None] or a
    string. *)
Definition or_empty (x : option str) : str :=
  match x with
  | Some s => s
  | None => []
  end.

(** [str.lower()].  Python lower-cases with the Unicode character
    database, which is no part of the repository: the mapping is an
    interface here, with the one law the program relies on (only the empty
    string lower-cases to the empty string). *)
Class Lowercase := {
  lower : str → str;
  lower_nil_iff : ∀ s, lower s = [] ↔ s = []
}.

(** The lower-case mapping of the code points below U+0100 (ASCII and
    Latin-1), where it is one code point to one code point; other code
    points are left as they are. *)
Definition lower_cp (c : char) : char :=
  if ((65 <=? c) && (c <=? 90))
     || ((192 <=? c) && (c <=? 222) && negb (c =? 215))
  then c + 32 else c.

Lemma fmap_lower_cp_nil_iff (s : str) : lower_cp <$> s = [] ↔ s = [].
Proof.
  split; [|intros ->; reflexivity].
  destruct s; [reflexivity|discriminate].
Qed.

#[global] Instance latin1_lowercase : Lowercase :=
  {| lower := fmap lower_cp; lower_nil_iff := fmap_lower_cp_nil_iff |}.

End PyStr.

Import PyStr.

(** ** The list normaliser *)

(** [html.escape(s)] with its default [quote=True], one code point at a
    time. *)
Definition escape_cp (c : char) : str :=
  if c =? 38 then py "&amp;"
  else if c =? 60 then py "&lt;"
  else if c =? 62 then py "&gt;"
  else if c =? 34 then py "&quot;"
  else if c =? 39 then py "&#x27;"
  else [c].

Definition escape (s : str) : str := s ≫= escape_cp.

(** The double quote inside the markup below. *)
Definition dquote : char := 34.

(** [render_badges_csv(csv_text)]. *)
Definition render_badges_csv (csv_text : option str) : str :=
  let names :=
    strip <$> filter (λ n, truthy (strip n)) (split comma (or_empty csv_text)) in
  if decide (names = []) then []
  else
    let spans :=
      names ≫= (λ n, py "<span class=" ++ [dquote] ++ py "badge" ++ [dquote]
                        ++ py ">" ++ escape n ++ py "</span>") in
    py "<div class=" ++ [dquote] ++ py "badges" ++ [dquote] ++ py ">"
      ++ spans ++ py "</div>".

(** [_split_csv(csv_text)]: the comprehension over the pieces [n] of
    [csv_text], or of the empty string when it is [None], split at [","]:
    [n.strip()] for every piece with a non-empty [n.strip()]. *)
Definition _split_csv (csv_text : option str) : list str :=
  strip <$> filter (λ n, truthy (strip n)) (split comma (or_empty csv_text)).

Section Dedupe.
Context `{Lowercase}.

(** One turn of the loop of [_dedupe_keep_order] on the pair
    [(seen, out)]. *)
Definition dedupe_step (st : gset (list N) * list str) (x : str)
  : gset (list N) * list str :=
  let k := strip x in
  let lk := lower k in
  if decide (truthy lk ∧ lk ∉ st.1)
  then (st.1 ∪ {[lk]}, st.2 ++ [k])
  else st.

Definition _dedupe_keep_order (items : list str) : list str :=
  (foldl dedupe_step (∅, []) items).2.
End Dedupe.

(** ** SQLite values, collations and [LIKE] *)

Module Sql.

(** The [BINARY] collation: [memcmp] on the UTF-8 bytes, then the shorter
    string first.  UTF-8 keeps the order of code points, so this is the
    lexicographic comparison of the code point sequences. *)
Fixpoint binary_cmp (a b : str) : comparison :=
  match a, b with
  | [], [] => Eq
  | [], _ :: _ => Lt
  | _ :: _, [] => Gt
  | x :: a', y :: b' =>
      match N.compare x y with
      | Eq => binary_cmp a' b'
      | c => c
      end
  end.

(** SQLite folds the 26 ASCII upper-case letters and nothing else, in
    [NOCASE] and in [LIKE]. *)
Definition nocase_fold (c : char) : char :=
  if (65 <=? c) && (c <=? 90) then c + 32 else c.

(** The [NOCASE] collation. *)
Definition nocase_cmp (a b : str) : comparison :=
  binary_cmp (nocase_fold <$> a) (nocase_fold <$> b).

Definition percent : char := 37.
Definition underscore : char := 95.

(** [text LIKE pattern] without [ESCAPE]: [%] stands for any run of
    characters, [_] for any one character, and letters compare as in
    [NOCASE]. *)
Fixpoint like (pattern text : str) : bool :=
  match pattern with
  | [] => match text with [] => true | _ :: _ => false end
  | p :: pattern' =>
      if p =? percent then
        (fix any_suffix (t : str) : bool :=
           like pattern' t
           || match t with
              | [] => false
              | _ :: t' => any_suffix t'
              end) text
      else
        match text with
        | [] => false
        | c :: text' =>
            ((p =? underscore) || (nocase_fold p =? nocase_fold c))
            && like pattern' text'
        end
  end.

(** [column LIKE pattern] in a [WHERE] clause: on [NULL] the result is
    [NULL], which selects no row. *)
Definition like_col (pattern : str) (column : option str) : bool :=
  match column with
  | Some text => like pattern text
  | None => false
  end.

(** [ORDER BY] with a three-way comparison, ascending: an insertion sort
    that keeps rows that compare equal in the order they had. *)
Section OrderBy.
Context {A : Type} (cmp : A → A → comparison).

Fixpoint insert_row (x : A) (rows : list A) : list A :=
  match rows with
  | [] => [x]
  | y :: rows' =>
      match cmp x y with
      | Gt => y :: insert_row x rows'
      | _ => x :: rows
      end
  end.

Definition order_by (rows : list A) : list A := foldr insert_row [] rows.
End OrderBy.

(** [ORDER BY ... DESC] compares the other way round. *)
Definition desc {A : Type} (cmp : A → A → comparison) : A → A → comparison :=
  λ x y, cmp y x.

End Sql.

Import Sql.

Local Open Scope Z_scope.

(** ** The database file *)

(** The exceptions a run can raise: those of the [sqlite3] module for the
    statements, and Streamlit's own. *)
Inductive error :=
  | IntegrityError        (* a constraint failed *)
  | OperationalError      (* the engine refused the statement *)
  | StreamlitAPIException (* Streamlit refused a call *).

Inductive result (A : Type) :=
  | Ok (a : A)
  | Raise (e : error).
Arguments Ok {A} a.
Arguments Raise {A} e.

(** An exception ends the function that calls the statement. *)
#[global] Instance result_bind : MBind result := λ A B f r,
  match r with
  | Ok a => f a
  | Raise e => Raise e
  end.

(** A row of [recipes]: [name] is [TEXT NOT NULL], the other text columns
    may hold [NULL]. *)
Record recipe := {
  r_id : Z;
  r_name : str;
  r_ingredients : option str;
  r_instructions : option str;
  r_tags : option str;
  r_liked_by : option str
}.

(** A row of [meals]. *)
Record meal := {
  m_id : Z;
  m_recipe_id : Z;
  m_ate_on : str;
  m_notes : option str
}.

(** The two tables in rowid order, and for each the [sqlite_sequence]
    entry that [AUTOINCREMENT] keeps: the largest rowid handed out so far. *)
Record database := {
  recipes : list recipe;
  meals : list meal;
  seq_recipes : Z;
  seq_meals : Z
}.

Definition empty_db : database :=
  {| recipes := []; meals := []; seq_recipes := 0; seq_meals := 0 |}.

(** [init_db()]: [CREATE TABLE IF NOT EXISTS] for both tables.  [None] is a
    file without the tables. *)
Definition init_db (file : option database) : database :=
  match file with
  | Some db => db
  | None => empty_db
  end.

(** A connection.  [foreign_keys] is the [PRAGMA] of that name. *)
Record connection := { foreign_keys : bool }.

(** [sqlite3.connect(DB_PATH)].  SQLite opens every connection with
    [PRAGMA foreign_keys] off, and no function of the program turns it on. *)
Definition connect : connection := {| foreign_keys := false |}.

Definition max_rowid : Z := 9223372036854775807.

(** The rowid of a new row of an [AUTOINCREMENT] table: one more than the
    largest rowid the table ever had; [SQLITE_FULL] once the largest
    possible rowid has been used. *)
Definition fresh_rowid (seq : Z) (ids : list Z) : result Z :=
  let largest := foldr Z.max seq ids in
  if largest <? max_rowid then Ok (largest + 1) else Raise OperationalError.

(** *** The statements of the program *)

(** [INSERT INTO recipes (name, ingredients, instructions, tags, liked_by)
    VALUES (?, ?, ?, ?, ?)]. *)
Definition insert_recipe (conn : connection)
    (name ingredients instructions tags liked_by : str) (db : database)
  : result database :=
  id ← fresh_rowid (seq_recipes db) (r_id <$> recipes db) ;
  Ok {| recipes := recipes db ++
                   [{| r_id := id; r_name := name;
                       r_ingredients := Some ingredients;
                       r_instructions := Some instructions;
                       r_tags := Some tags;
                       r_liked_by := Some liked_by |}];
        meals := meals db;
        seq_recipes := id;
        seq_meals := seq_meals db |}.

(** [UPDATE recipes SET name = ?, ingredients = ?, instructions = ?,
    tags = ?, liked_by = ? WHERE id = ?]. *)
Definition update_recipe_row (conn : connection) (recipe_id : Z)
    (name ingredients instructions tags liked_by : str) (db : database)
  : database :=
  {| recipes :=
       (λ r, if decide (r_id r = recipe_id)
             then {| r_id := r_id r; r_name := name;
                     r_ingredients := Some ingredients;
                     r_instructions := Some instructions;
                     r_tags := Some tags;
                     r_liked_by := Some liked_by |}
             else r) <$> recipes db;
     meals := meals db;
     seq_recipes := seq_recipes db;
     seq_meals := seq_meals db |}.

(** [DELETE FROM recipes WHERE id = ?].  The [ON DELETE CASCADE] of
    [meals.recipe_id] removes the meals of every deleted recipe, on a
    connection that enforces foreign keys. *)
Definition delete_recipe_row (conn : connection) (recipe_id : Z) (db : database)
  : database :=
  let deleted := filter (λ r, r_id r = recipe_id) (recipes db) in
  {| recipes := filter (λ r, r_id r ≠ recipe_id) (recipes db);
     meals := if foreign_keys conn
              then filter (λ m, m_recipe_id m ∉ (r_id <$> deleted)) (meals db)
              else meals db;
     seq_recipes := seq_recipes db;
     seq_meals := seq_meals db |}.

(** [INSERT INTO meals (recipe_id, ate_on, notes) VALUES (?, ?, ?)].  The
    [FOREIGN KEY(recipe_id) REFERENCES recipes(id)] is checked on a
    connection that enforces foreign keys. *)
Definition insert_meal (conn : connection) (recipe_id : Z) (ate_on notes : str)
    (db : database) : result database :=
  if foreign_keys conn && bool_decide (recipe_id ∉ (r_id <$> recipes db))
  then Raise IntegrityError
  else
    id ← fresh_rowid (seq_meals db) (m_id <$> meals db) ;
    Ok {| recipes := recipes db;
          meals := meals db ++
                   [{| m_id := id; m_recipe_id := recipe_id;
                       m_ate_on := ate_on; m_notes := Some notes |}];
          seq_recipes := seq_recipes db;
          seq_meals := id |}.

(** *** The database functions of [app.py]

    Each opens its own connection, runs its statement, commits and closes.
    A function that raises has not committed: the file is as it was. *)

Definition add_recipe (name ingredients instructions tags liked_by : str)
    (db : database) : result database :=
  let conn := connect in
  insert_recipe conn name ingredients instructions tags liked_by db.

Definition update_recipe (recipe_id : Z)
    (name ingredients instructions tags liked_by : str) (db : database)
  : database :=
  let conn := connect in
  update_recipe_row conn recipe_id name ingredients instructions tags liked_by db.

(** [get_recipes(query, liked_filter)]: [where] collects the conditions,
    joined with [AND]; without conditions there is no [WHERE] clause. *)
Definition get_recipes (query liked_filter : str) (db : database) : list recipe :=
  let where1 :=
    if decide (truthy query)
    then let q := [percent] ++ query ++ [percent] in
         [λ r, like q (r_name r) || like_col q (r_ingredients r)
               || like_col q (r_instructions r) || like_col q (r_tags r)]
    else [] in
  let where2 :=
    if decide (truthy liked_filter)
    then [λ r, like_col ([percent] ++ liked_filter ++ [percent]) (r_liked_by r)]
    else [] in
  let where_ := where1 ++ where2 in
  let selected :=
    match where_ with
    | [] => recipes db
    | _ :: _ => List.filter (λ r, forallb (λ cond, cond r) where_) (recipes db)
    end in
  order_by (λ a b, nocase_cmp (r_name a) (r_name b)) selected.

Definition delete_recipe (recipe_id : Z) (db : database) : database :=
  let conn := connect in
  delete_recipe_row conn recipe_id db.

Definition log_meal (recipe_id : Z) (ate_on notes : str) (db : database)
  : result database :=
  let conn := connect in
  insert_meal conn recipe_id ate_on notes db.

(** The em dash [get_meal_stats] shows when there is no meal. *)
Definition em_dash : str := [8212%N].

(** [get_meal_stats(recipe_id)]: [SELECT COUNT( * )], then
    [SELECT ate_on ... ORDER BY ate_on DESC LIMIT 1] and [fetchone()]. *)
Definition get_meal_stats (recipe_id : Z) (db : database) : Z * str :=
  let total :=
    Z.of_nat (length (filter (λ m, m_recipe_id m = recipe_id) (meals db))) in
  let last :=
    head (take 1 (order_by (desc binary_cmp)
                    (m_ate_on <$> filter (λ m, m_recipe_id m = recipe_id) (meals db)))) in
  let last_date :=
    match last with
    | Some ate_on => ate_on
    | None => em_dash
    end in
  (total, last_date).

(** *** Export *)

(** What [pd.read_sql_query] gives back: the rows of a table. *)
Inductive frame :=
  | RecipeRows (rows : list recipe)
  | MealRows (rows : list meal).

(** The engine on the text of a [SELECT]: the two statements the buttons of
    the program lead to are given their frames; [None] stands for any other
    text, whose evaluation by SQLite is outside this development. *)
Definition read_sql_query (sql : str) (db : database) : option frame :=
  if decide (sql = py "SELECT * FROM recipes") then Some (RecipeRows (recipes db))
  else if decide (sql = py "SELECT * FROM meals") then Some (MealRows (meals db))
  else None.

(** How a call of [export_table] can end: it raises before the engine sees
    anything, or it hands the engine a statement. *)
Inductive export_outcome :=
  | Rejected (e : error)
  | Handed (sql : str) (reply : option frame).

(** [export_table(table_name)]: the f-string [SELECT * FROM {table_name}]
    goes to [pd.read_sql_query] as it is. *)
Definition export_table (table_name : str) (db : database) : export_outcome :=
  let sql := py "SELECT * FROM " ++ table_name in
  Handed sql (read_sql_query sql db).

(** ** The "Opslaan" button of the sidebar *)

(** The widgets of the "Nieuw recept" form, as [st.session_state] keeps
    them. *)
Record form := {
  new_name : str;
  new_ing : str;
  new_instr : str;
  new_tags : str;
  new_selected_likers : list str;
  new_likers_csv : str
}.

(** What the handler shows with [st.success] and [st.warning]. *)
Inductive notice :=
  | Success (text : string)
  | Warning (text : string).

(** The widgets the sidebar has instantiated (lines 163 to 172 of [app.py],
    by their [key]) when the button is reached. *)
Definition sidebar_keys : list string :=
  ["new_name"; "new_ing"; "new_instr"; "new_tags"; "new_selected_likers";
   "new_likers_csv"]%string.

(** [st.session_state[key] = value] in the course of a run: Streamlit
    refuses the assignment, with [StreamlitAPIException], when a widget with
    that key has been instantiated in the run; otherwise the value is
    stored. *)
Definition set_session_state (instantiated : list string) (key : string)
    (store : form → form) (f : form) : result form :=
  if decide (key ∈ instantiated) then Raise StreamlitAPIException
  else Ok (store f).

(** The six assignments that are to empty the form. *)
Definition reset_form (f : form) : result form :=
  f ← set_session_state sidebar_keys "new_name"
        (λ f, {| new_name := []; new_ing := new_ing f; new_instr := new_instr f;
                 new_tags := new_tags f;
                 new_selected_likers := new_selected_likers f;
                 new_likers_csv := new_likers_csv f |}) f;
  f ← set_session_state sidebar_keys "new_ing"
        (λ f, {| new_name := new_name f; new_ing := []; new_instr := new_instr f;
                 new_tags := new_tags f;
                 new_selected_likers := new_selected_likers f;
                 new_likers_csv := new_likers_csv f |}) f;
  f ← set_session_state sidebar_keys "new_instr"
        (λ f, {| new_name := new_name f; new_ing := new_ing f; new_instr := [];
                 new_tags := new_tags f;
                 new_selected_likers := new_selected_likers f;
                 new_likers_csv := new_likers_csv f |}) f;
  f ← set_session_state sidebar_keys "new_tags"
        (λ f, {| new_name := new_name f; new_ing := new_ing f;
                 new_instr := new_instr f; new_tags := [];
                 new_selected_likers := new_selected_likers f;
                 new_likers_csv := new_likers_csv f |}) f;
  f ← set_session_state sidebar_keys "new_selected_likers"
        (λ f, {| new_name := new_name f; new_ing := new_ing f;
                 new_instr := new_instr f; new_tags := new_tags f;
                 new_selected_likers := [];
                 new_likers_csv := new_likers_csv f |}) f;
  set_session_state sidebar_keys "new_likers_csv"
        (λ f, {| new_name := new_name f; new_ing := new_ing f;
                 new_instr := new_instr f; new_tags := new_tags f;
                 new_selected_likers := new_selected_likers f;
                 new_likers_csv := [] |}) f.

(** How a click ends: the database file and the form after it, what was
    shown, and the exception that ended the run, if one did. *)
Record click := {
  db_after : database;
  form_after : form;
  shown : list notice;
  raised : option error
}.

Section Opslaan.
Context `{Lowercase}.

(** The body of [if st.button("Opslaan", ...)].  [add_recipe] has
    committed when [st.success] and the assignments to [st.session_state]
    follow; [st.rerun()] ends a run that gets that far. *)
Definition opslaan (f : form) (db : database) : click :=
  let r_name := new_name f in
  let r_ingredients := new_ing f in
  let r_instructions := new_instr f in
  let r_tags := new_tags f in
  let selected_names := new_selected_likers f in
  if decide (truthy (strip r_name)) then
    let combined_likers :=
      _dedupe_keep_order (selected_names ++ _split_csv (Some (new_likers_csv f))) in
    let liked_by_value := join [comma; space] combined_likers in
    match add_recipe (strip r_name) (strip r_ingredients) (strip r_instructions)
                     (strip r_tags) liked_by_value db with
    | Raise e =>
        {| db_after := db; form_after := f; shown := []; raised := Some e |}
    | Ok db' =>
        match reset_form f with
        | Ok f' =>
            {| db_after := db'; form_after := f';
               shown := [Success "Recept opgeslagen."]; raised := None |}
        | Raise e =>
            {| db_after := db'; form_after := f;
               shown := [Success "Recept opgeslagen."]; raised := Some e |}
        end
    end
  else
    {| db_after := db; form_after := f;
       shown := [Warning "Naam is verplicht."]; raised := None |}.
End Opslaan.


(** ** The names of all likers *)

Local Open Scope N_scope.

(** SQL [TRIM(X)]: the spaces (U+0020, and nothing else) at both ends go. *)
Fixpoint ltrim_spaces (s : str) : str :=
  match s with
  | c :: s' => if c =? space then ltrim_spaces s' else s
  | [] => []
  end.

Definition sql_trim (s : str) : str := rev (ltrim_spaces (rev (ltrim_spaces s))).

(** [SELECT liked_by FROM recipes WHERE liked_by IS NOT NULL AND
    TRIM(liked_by) <> ''], in rowid order. *)
Definition liked_by_rows (db : database) : list str :=
  omap (λ r, match r_liked_by r with
             | Some csv_text => if decide (sql_trim csv_text ≠ [])
                                then Some csv_text else None
             | None => None
             end) (recipes db).

(** [sorted(items, key=key)]: keys compare as Python strings do, code point
    by code point, and items with equal keys keep their order. *)
Definition sorted_by_key (key : str → str) (items : list str) : list str :=
  order_by (λ a b, binary_cmp (key a) (key b)) items.

Section Likers.
Context `{Lowercase}.

(** [get_all_likers()].  [names] is a Python [set]; the order in which
    [sorted] walks it is the set's own and is the argument [set_order]. *)
Definition get_all_likers (set_order : gset (list N) → list str) (db : database)
  : list str :=
  let rows := liked_by_rows db in
  let names :=
    foldl (λ names csv_text,
             foldl (λ names n, names ∪ {[strip n]}) names
                   (_split_csv (Some csv_text)))
          (∅ : gset (list N)) rows in
  sorted_by_key lower (set_order names).
End Likers.

Local Open Scope Z_scope.

(** ** Dates and the other buttons *)

(** A [datetime.date], as [st.date_input] returns it. *)
Record date := { year : Z; month : Z; day : Z }.

(** The decimal digits of [n], [width] of them, zeros in front: [%04d] and
    [%02d] for a number that fits the width. *)
Fixpoint zero_padded (width : nat) (n : Z) : str :=
  match width with
  | O => []
  | S w => zero_padded w (n / 10) ++ [Z.to_N (48 + n mod 10)]
  end.

Definition hyphen : char := 45%N.

(** [date.isoformat()]: [YYYY-MM-DD]. *)
Definition isoformat (d : date) : str :=
  zero_padded 4 (year d) ++ [hyphen] ++ zero_padded 2 (month d)
    ++ [hyphen] ++ zero_padded 2 (day d).

(** The body of [if st.button("Log eetmoment", ...)] in the tab of recipe
    [rid]. *)
Definition log_eetmoment (rid : Z) (ate_on : date) (note : str) (db : database)
  : result (database * notice) :=
  db' ← log_meal rid (isoformat ate_on) (strip note) db;
  Ok (db', Success "Eetmoment toegevoegd.").

(** The widgets of the "Bewerken" tab of a recipe. *)
Record edit_form := {
  edit_name : str;
  edit_ing : str;
  edit_instr : str;
  edit_tags : str;
  edit_likers : list str;
  edit_new_likers : str
}.

Section Bewerken.
Context `{Lowercase}.

(** The body of [if st.button("Opslaan wijzigingen", ...)] in the tab of
    recipe [rid]. *)
Definition opslaan_wijzigingen (rid : Z) (f : edit_form) (db : database)
  : database * notice :=
  let new_name := edit_name f in
  let new_ing := edit_ing f in
  let new_instr := edit_instr f in
  let new_tags := edit_tags f in
  let selected_names := edit_likers f in
  let new_likers_csv := edit_new_likers f in
  let combined_likers :=
    _dedupe_keep_order (selected_names ++ _split_csv (Some new_likers_csv)) in
  let liked_by_value := join [comma; space] combined_likers in
  (update_recipe rid (strip new_name) (strip new_ing) (strip new_instr)
                 (strip new_tags) liked_by_value db,
   Success "Recept bijgewerkt.").
End Bewerken.

(** The body of [if st.button("Verwijder recept", ...)]. *)
Definition verwijder_recept (rid : Z) (db : database) : database * notice :=
  (delete_recipe rid db, Warning "Recept verwijderd.").

(** ** The vocabulary of the specification *)

Local Open Scope N_scope.

(** A name as [_split_csv] returns it: trimmed, not empty, without comma. *)
Definition clean_name (e : str) : Prop := strip e = e ∧ e ≠ [] ∧ comma ∉ e.

(** [joinCsv]: the [", ".join] that builds the stored value. *)
Definition join_csv (items : list str) : str := join [comma; space] items.

Section DedupeSpec.
Context `{Lowercase}.

(** The comparison key of an item: its lower-cased trimmed form. *)
Definition key (x : str) : str := lower (strip x).

(** Position [i] holds the first occurrence of a name: the item there is
    not empty once trimmed, and no earlier item has its key. *)
Definition first_seen (items : list str) (i : nat) : Prop :=
  ∃ x, items !! i = Some x ∧ truthy (strip x)
       ∧ ∀ j y, (j < i)%nat → items !! j = Some y → key y ≠ key x.

(** [out] holds, in order, the trimmed items at the positions [idxs]. *)
Definition picks (items : list str) (idxs : list nat) (out : list str) : Prop :=
  Forall2 (λ i k, ∃ x, items !! i = Some x ∧ k = strip x) idxs out.

(** What holds of [(seen, out)] once the loop has walked [items]. *)
Record dedupe_inv (items : list str) (st : gset (list N) * list str) : Prop := {
  inv_seen : ∀ lk, lk ∈ st.1 ↔ lk ≠ [] ∧ ∃ y, y ∈ items ∧ key y = lk;
  inv_out : ∃ idxs, StronglySorted lt idxs
                    ∧ (∀ i, i ∈ idxs ↔ first_seen items i)
                    ∧ picks items idxs st.2;
  inv_keys : ∀ k, k ∈ st.2 → lower k ∈ st.1;
  inv_nodup : NoDup (lower <$> st.2)
}.
End DedupeSpec.

(** [x] may stand before [y] in a result ordered by [cmp]. *)
Definition before {A : Type} (cmp : A → A → comparison) (x y : A) : Prop :=
  cmp x y ≠ Gt.

(** Ascending order of two names that ignores the case of the ASCII
    letters, which is what [COLLATE NOCASE] ignores. *)
Definition nocase_le (a b : str) : Prop :=
  nocase_fold <$> a = nocase_fold <$> b
  ∨ lexico (nocase_fold <$> a) (nocase_fold <$> b).

(** Modelled from the spec: the allow-list of exportable tables.  The
    program has none; the specification names the two tables. *)
Definition allow_list : list str := [py "recipes"; py "meals"].

Local Open Scope Z_scope.

(** The meals of a recipe, and the dates among them. *)
Definition meals_of (recipe_id : Z) (db : database) : list meal :=
  filter (λ m, m_recipe_id m = recipe_id) (meals db).

Definition dates_of (recipe_id : Z) (db : database) : list str :=
  m_ate_on <$> meals_of recipe_id db.

(** [log_meal] once for every date of a list, in order. *)
Fixpoint log_meals (recipe_id : Z) (dates : list str) (db : database)
  : result database :=
  match dates with
  | [] => Ok db
  | ate_on :: dates' =>
      db' ← log_meal recipe_id ate_on [] db;
      log_meals recipe_id dates' db'
  end.

(** The scenarios of the specification, from a new file. *)
Definition three_recipes : result database :=
  db ← add_recipe (py "banana") [] [] [] [] (init_db None);
  db ← add_recipe (py "Apple") [] [] [] [] db;
  add_recipe (py "cherry") [] [] [] [] db.

Definition two_meals : result database :=
  db ← add_recipe (py "soep") [] [] [] [] (init_db None);
  log_meals 1 [py "2024-01-01"; py "2024-03-05"] db.


(** *** Further vocabulary *)

(** The rowids of a table are pairwise different and none exceeds the
    [sqlite_sequence] entry of the table. *)
Definition ids_ok (db : database) : Prop :=
  NoDup (r_id <$> recipes db)
  ∧ Forall (λ i, i ≤ seq_recipes db) (r_id <$> recipes db)
  ∧ NoDup (m_id <$> meals db)
  ∧ Forall (λ i, i ≤ seq_meals db) (m_id <$> meals db).

(** The condition the two filters of [get_recipes] put on a row. *)
Definition selected_by (query liked_filter : str) (r : recipe) : bool :=
  (bool_decide (query = [])
   || like ([percent] ++ query ++ [percent]) (r_name r)
   || like_col ([percent] ++ query ++ [percent]) (r_ingredients r)
   || like_col ([percent] ++ query ++ [percent]) (r_instructions r)
   || like_col ([percent] ++ query ++ [percent]) (r_tags r))
  && (bool_decide (liked_filter = [])
      || like_col ([percent] ++ liked_filter ++ [percent]) (r_liked_by r)).

(** A text without the wildcards of [LIKE]. *)
Definition literal (q : str) : Prop :=
  Forall (λ c, c ≠ percent ∧ c ≠ underscore) q.

(** The field ranges of a [datetime.date]. *)
Definition date_ok (d : date) : Prop :=
  1 ≤ year d ≤ 9999 ∧ 1 ≤ month d ≤ 12 ∧ 1 ≤ day d ≤ 31.

(** Earlier, same day or later. *)
Definition date_cmp (d1 d2 : date) : comparison :=
  match year d1 ?= year d2 with
  | Eq => match month d1 ?= month d2 with
          | Eq => day d1 ?= day d2
          | c => c
          end
  | c => c
  end.

(** The characters that open or close markup or an attribute value. *)
Definition markup_chars : list char := [60%N; 62%N; 34%N; 39%N].


(** Modelled from the spec: ascending order of two names "case-insensitively",
    as the order of their lower-cased forms. *)
Definition case_insensitive_le `{Lowercase} (a b : str) : Prop :=
  lower a = lower b ∨ lexico (lower a) (lower b).

(** The names "Éz" and "éa": U+00C9 and U+00E9 are the upper-case and the
    lower-case E with acute accent. *)
Definition name_Ez : str := [201%N; 122%N].
Definition name_ea : str := [233%N; 97%N].

(** Two more scenarios from a new file: names that differ in the case of
    ASCII letters, and names that differ in the case of a letter outside
    ASCII. *)
Definition mixed_case_recipes : result database :=
  db ← add_recipe (py "Banana") [] [] [] [] (init_db None);
  add_recipe (py "apple") [] [] [] [] db.

Definition accented_recipes : result database :=
  db ← add_recipe name_ea [] [] [] [] (init_db None);
  add_recipe name_Ez [] [] [] [] db.

(** A database with two recipes and three meals, the meals of recipe 1 not
    in the order of their dates. *)
Definition sample_db : database :=
  {| recipes :=
       [{| r_id := 1; r_name := py "Soep"; r_ingredients := Some (py "ui");
           r_instructions := None; r_tags := Some (py "snel");
           r_liked_by := Some (py "Ana, Bob") |};
        {| r_id := 2; r_name := py "appeltaart"; r_ingredients := Some (py "appel");
           r_instructions := Some []; r_tags := None; r_liked_by := None |}];
     meals :=
       [{| m_id := 1; m_recipe_id := 1; m_ate_on := py "2024-03-05";
           m_notes := Some [] |};
        {| m_id := 2; m_recipe_id := 1; m_ate_on := py "2024-01-01";
           m_notes := Some (py "lekker") |};
        {| m_id := 3; m_recipe_id := 2; m_ate_on := py "2024-02-02";
           m_notes := None |}];
     seq_recipes := 2;
     seq_meals := 3 |}.
(** ** Facts about [strip], [split] and [join] *)

Local Open Scope N_scope.

Section StripFacts.

Lemma lstrip_fixed (c : char) (s : str) :
  isspace c = false → lstrip (c :: s) = c :: s.
Proof. intros Hc. simpl. rewrite Hc. reflexivity. Qed.

Lemma lstrip_head (s : str) :
  lstrip s = [] ∨ ∃ c t, lstrip s = c :: t ∧ isspace c = false.
Proof.
  induction s as [|c s IH]; [left; reflexivity|].
  simpl. destruct (isspace c) eqn:Hc; [exact IH|].
  right. exists c, s. split; [reflexivity|exact Hc].
Qed.

Lemma lstrip_idemp (s : str) : lstrip (lstrip s) = lstrip s.
Proof.
  destruct (lstrip_head s) as [->|(c & t & -> & Hc)]; [reflexivity|].
  apply lstrip_fixed, Hc.
Qed.

(** [lstrip] removes a prefix of whitespace. *)
Lemma lstrip_split (s : str) :
  ∃ p, s = p ++ lstrip s ∧ Forall (λ c, isspace c = true) p.
Proof.
  induction s as [|c s (p & Hp & Hall)]; [exists []; split; [reflexivity|constructor]|].
  simpl. destruct (isspace c) eqn:Hc.
  - exists (c :: p). split; [simpl; f_equal; exact Hp|constructor; assumption].
  - exists []. split; [reflexivity|constructor].
Qed.

Lemma lstrip_all_space (s : str) :
  Forall (λ c, isspace c = true) s → lstrip s = [].
Proof. induction 1 as [|c s Hc _ IH]; simpl; [|rewrite Hc]; auto. Qed.

Lemma rstrip_split (s : str) :
  ∃ q, s = rstrip s ++ q ∧ Forall (λ c, isspace c = true) q.
Proof.
  unfold rstrip. destruct (lstrip_split (rev s)) as (p & Hp & Hall).
  exists (rev p). split.
  - rewrite <- rev_app_distr, <- Hp, rev_involutive. reflexivity.
  - apply Forall_rev, Hall.
Qed.

(** [strip s] is [s] without a whitespace prefix and a whitespace suffix. *)
Lemma strip_split (s : str) :
  ∃ p q, s = p ++ strip s ++ q
         ∧ Forall (λ c, isspace c = true) p ∧ Forall (λ c, isspace c = true) q.
Proof.
  destruct (lstrip_split s) as (p & Hp & Hpall).
  destruct (rstrip_split (lstrip s)) as (q & Hq & Hqall).
  exists p, q. unfold strip. rewrite <- Hq. auto.
Qed.

(** A stripped string starts with no whitespace... *)
Lemma lstrip_strip (s : str) : lstrip (strip s) = strip s.
Proof.
  unfold strip, rstrip.
  destruct (lstrip_head s) as [->|(c & t & -> & Hc)]; [reflexivity|].
  destruct (lstrip_head (rev (c :: t))) as [->|(d & u & Hu & Hd)]; [reflexivity|].
  rewrite Hu.
  destruct (lstrip_split (rev (c :: t))) as (p & Hp & _).
  rewrite Hu in Hp. apply (f_equal (@rev N)) in Hp.
  rewrite rev_involutive, rev_app_distr in Hp.
  destruct (rev (d :: u)) as [|e w] eqn:Hw.
  - reflexivity.
  - simpl in Hp. injection Hp as <- _. apply lstrip_fixed, Hc.
Qed.

(** ... and ends with none. *)
Lemma rstrip_strip (s : str) : rstrip (strip s) = strip s.
Proof.
  unfold strip, rstrip. rewrite rev_involutive, lstrip_idemp. reflexivity.
Qed.

Lemma strip_idemp (s : str) : strip (strip s) = strip s.
Proof.
  unfold strip at 1. rewrite lstrip_strip. apply rstrip_strip.
Qed.

Lemma strip_cons_space (c : char) (s : str) :
  isspace c = true → strip (c :: s) = strip s.
Proof. intros Hc. unfold strip. simpl. rewrite Hc. reflexivity. Qed.

Lemma strip_all_space (s : str) :
  Forall (λ c, isspace c = true) s → strip s = [].
Proof. intros Hs. unfold strip. rewrite lstrip_all_space by exact Hs. reflexivity. Qed.

Lemma strip_not_elem (c : char) (s : str) : c ∉ s → c ∉ strip s.
Proof.
  intros Hc Hin. apply Hc.
  destruct (strip_split s) as (p & q & Hs & _).
  rewrite Hs. set_solver.
Qed.

End StripFacts.

Section SplitFacts.
Variable sep : char.

Lemma split_not_nil (s : str) : split sep s ≠ [].
Proof.
  destruct s as [|c s]; simpl; [discriminate|].
  destruct (c =? sep); [discriminate|].
  destruct (split sep s); discriminate.
Qed.

(** A string without the separator is one piece. *)
Lemma split_no_sep (s : str) : sep ∉ s → split sep s = [s].
Proof.
  induction s as [|c s IH]; intros Hs; [reflexivity|].
  simpl. destruct (N.eqb_spec c sep) as [->|Hne]; [set_solver|].
  rewrite IH by set_solver. reflexivity.
Qed.

(** The first piece ends at the first separator. *)
Lemma split_app_sep (x y : str) :
  sep ∉ x → split sep (x ++ sep :: y) = x :: split sep y.
Proof.
  induction x as [|c x IH]; intros Hx; simpl.
  - rewrite N.eqb_refl. reflexivity.
  - destruct (N.eqb_spec c sep) as [->|Hne]; [set_solver|].
    rewrite IH by set_solver. reflexivity.
Qed.

(** No piece holds the separator... *)
Lemma split_pieces_no_sep (s : str) : Forall (λ p, sep ∉ p) (split sep s).
Proof.
  induction s as [|c s IH]; simpl.
  - constructor; [set_solver|constructor].
  - destruct (N.eqb_spec c sep) as [->|Hne].
    + constructor; [set_solver|exact IH].
    + destruct (split sep s) as [|p ps].
      * constructor; [|constructor]. intros Hin.
        apply list_elem_of_singleton in Hin. congruence.
      * apply Forall_cons in IH as [Hp Hps]. constructor; [|exact Hps].
        intros Hin. apply elem_of_cons in Hin as [Heq|Hin]; [congruence|].
        exact (Hp Hin).
Qed.

(** ... and the pieces, put together with the separator, are the string. *)
Lemma join_split (s : str) : join [sep] (split sep s) = s.
Proof.
  induction s as [|c s IH]; [reflexivity|].
  simpl. destruct (N.eqb_spec c sep) as [->|Hne].
  - pose proof (split_not_nil s) as Hnn.
    destruct (split sep s) as [|p ps]; [contradiction|].
    change (join [sep] ([] :: p :: ps)) with (sep :: join [sep] (p :: ps)).
    rewrite IH. reflexivity.
  - pose proof (split_not_nil s) as Hnn.
    destruct (split sep s) as [|p ps]; [contradiction|].
    destruct ps as [|p' ps]; simpl in *; rewrite <- IH; reflexivity.
Qed.

(** [split] is the only way of cutting a string into separator-free
    pieces. *)
Lemma split_join (pieces : list str) :
  pieces ≠ [] → Forall (λ p, sep ∉ p) pieces →
  split sep (join [sep] pieces) = pieces.
Proof.
  induction pieces as [|p ps IH]; intros Hnn Hall; [contradiction|].
  inversion Hall as [|? ? Hp Hps]; subst.
  destruct ps as [|p' ps].
  - simpl. apply split_no_sep, Hp.
  - change (join [sep] (p :: p' :: ps)) with (p ++ sep :: join [sep] (p' :: ps)).
    rewrite split_app_sep by exact Hp.
    rewrite IH; [reflexivity|discriminate|exact Hps].
Qed.

End SplitFacts.

(** ** [_split_csv] on what [", ".join] produced *)

Lemma split_comma_space (s : str) :
  split comma (space :: s) =
  match split comma s with
  | p :: ps => (space :: p) :: ps
  | [] => [[space]]
  end.
Proof. reflexivity. Qed.

Lemma split_join_comma_space (items : list str) :
  Forall (λ e, comma ∉ e) items →
  split comma (join [comma; space] items) =
  match items with
  | [] => [[]]
  | x :: rest => x :: (cons space <$> rest)
  end.
Proof.
  induction items as [|x rest IH]; intros Hall; [reflexivity|].
  inversion Hall as [|? ? Hx Hrest]; subst.
  destruct rest as [|y rest].
  - simpl. apply split_no_sep, Hx.
  - change (join [comma; space] (x :: y :: rest))
      with (x ++ comma :: space :: join [comma; space] (y :: rest)).
    rewrite split_app_sep by exact Hx.
    rewrite split_comma_space, (IH Hrest). reflexivity.
Qed.

Lemma split_csv_clean (csv_text : option str) :
  Forall clean_name (_split_csv csv_text).
Proof.
  unfold _split_csv. apply Forall_forall. intros e He.
  apply list_elem_of_fmap in He as (n & -> & Hn).
  apply list_elem_of_filter in Hn as [Htruthy Hn].
  repeat split.
  - apply strip_idemp.
  - exact Htruthy.
  - apply strip_not_elem.
    pose proof (split_pieces_no_sep comma (or_empty csv_text)) as Hall.
    rewrite Forall_forall in Hall. apply Hall, Hn.
Qed.

Lemma split_csv_join_clean (items : list str) :
  Forall clean_name items →
  _split_csv (Some (join [comma; space] items)) = items.
Proof.
  intros Hall. unfold _split_csv, or_empty.
  rewrite split_join_comma_space
    by (eapply Forall_impl; [exact Hall|intros e (_ & _ & He); exact He]).
  destruct Hall as [|x rest (Hx & Hxne & _) Hrest]; [reflexivity|].
  rewrite filter_cons_True by (unfold truthy; rewrite Hx; exact Hxne).
  rewrite fmap_cons, Hx. f_equal.
  induction Hrest as [|y rest (Hy & Hyne & _) _ IH]; [reflexivity|].
  assert (Hs : strip (space :: y) = y)
    by (rewrite strip_cons_space by reflexivity; exact Hy).
  rewrite fmap_cons, filter_cons_True by (unfold truthy; rewrite Hs; exact Hyne).
  rewrite fmap_cons, Hs, IH. reflexivity.
Qed.

(** ** The loop invariant of [_dedupe_keep_order] *)

Section DedupeFacts.
Context `{Lowercase}.

Lemma first_seen_lt items i : first_seen items i → (i < length items)%nat.
Proof. intros (x & Hx & _). eapply lookup_lt_Some, Hx. Qed.

Lemma first_seen_snoc items x i :
  first_seen (items ++ [x]) i ↔
  first_seen items i
  ∨ (i = length items ∧ truthy (strip x) ∧ ∀ y, y ∈ items → key y ≠ key x).
Proof.
  split.
  - intros (z & Hz & Htr & Hearlier).
    apply lookup_snoc_Some in Hz as [[Hlt Hz]|[-> ->]].
    + left. exists z. repeat split; [exact Hz|exact Htr|].
      intros j y Hj Hy. apply (Hearlier j y Hj).
      apply lookup_app_l_Some, Hy.
    + right. repeat split; [exact Htr|].
      intros y Hy. apply list_elem_of_lookup in Hy as [j Hj].
      apply (Hearlier j y); [eapply lookup_lt_Some, Hj|].
      apply lookup_app_l_Some, Hj.
  - intros [(z & Hz & Htr & Hearlier)|(-> & Htr & Hnone)].
    + exists z. repeat split; [apply lookup_app_l_Some, Hz|exact Htr|].
      intros j y Hj Hy. apply (Hearlier j y Hj).
      apply lookup_snoc_Some in Hy as [[_ Hy]|[-> _]]; [exact Hy|].
      apply lookup_lt_Some in Hz. lia.
    + exists x. repeat split; [apply list_lookup_middle; reflexivity|exact Htr|].
      intros j y Hj Hy. apply Hnone.
      apply lookup_snoc_Some in Hy as [[_ Hy]|[-> _]]; [|lia].
      apply list_elem_of_lookup. exists j. exact Hy.
Qed.

Lemma picks_weaken items x idxs out :
  picks items idxs out → picks (items ++ [x]) idxs out.
Proof.
  unfold picks. intros Hp. eapply Forall2_impl; [exact Hp|].
  intros i k (z & Hz & ->). exists z. split; [|reflexivity].
  apply lookup_app_l_Some, Hz.
Qed.

Lemma dedupe_inv_init : dedupe_inv [] (∅, []).
Proof.
  split; simpl.
  - intros lk. split; [set_solver|]. intros (_ & y & Hy & _). set_solver.
  - exists []. repeat split.
    + constructor.
    + set_solver.
    + intros Hfs. apply first_seen_lt in Hfs. simpl in Hfs. lia.
    + constructor.
  - set_solver.
  - constructor.
Qed.

Lemma dedupe_inv_step items st x :
  dedupe_inv items st → dedupe_inv (items ++ [x]) (dedupe_step st x).
Proof.
  intros [Hseen (idxs & Hsorted & Hidx & Hpicks) Hkeys Hnodup].
  unfold dedupe_step. fold (key x).
  destruct (decide (truthy (key x) ∧ key x ∉ st.1)) as [[Htr Hnew]|Hold]; simpl.
  - (* a new name: recorded and appended *)
    assert (Hfresh : ∀ y, y ∈ items → key y ≠ key x).
    { intros y Hy Heq. apply Hnew, Hseen. split; [exact Htr|]. eauto. }
    assert (Hstrip : truthy (strip x)).
    { intros Hnil. apply Htr. unfold key. rewrite Hnil. apply lower_nil_iff.
      reflexivity. }
    split; simpl.
    + intros lk. rewrite elem_of_union, elem_of_singleton, Hseen. split.
      * intros [(Hne & y & Hy & Hk)| ->].
        -- split; [exact Hne|]. exists y.
           split; [apply elem_of_app; left; exact Hy|exact Hk].
        -- split; [exact Htr|]. exists x.
           split; [apply elem_of_app; right; apply list_elem_of_singleton|];
             reflexivity.
      * intros (Hne & y & Hy & Hk).
        apply elem_of_app in Hy as [Hy|Hy].
        -- left. split; [exact Hne|]. eauto.
        -- right. apply list_elem_of_singleton in Hy. subst. reflexivity.
    + exists (idxs ++ [length items]). repeat split.
      * apply StronglySorted_app. repeat split; [|exact Hsorted|repeat constructor].
        intros i j Hi Hj. apply list_elem_of_singleton in Hj. subst j.
        apply first_seen_lt, Hidx, Hi.
      * intros Hi. apply first_seen_snoc.
        apply elem_of_app in Hi as [Hi|Hi]; [left; apply Hidx, Hi|].
        apply list_elem_of_singleton in Hi. right. auto.
      * intros Hi. apply first_seen_snoc in Hi as [Hi|(-> & _)].
        -- apply elem_of_app. left. apply Hidx, Hi.
        -- apply elem_of_app. right. apply list_elem_of_singleton. reflexivity.
      * apply Forall2_app; [apply picks_weaken, Hpicks|].
        constructor; [|constructor]. exists x. split; [|reflexivity].
        apply list_lookup_middle. reflexivity.
    + intros k Hk. apply elem_of_app in Hk as [Hk|Hk].
      * apply elem_of_union. left. apply Hkeys, Hk.
      * apply list_elem_of_singleton in Hk. subst k.
        apply elem_of_union. right. apply elem_of_singleton. reflexivity.
    + rewrite fmap_app. apply NoDup_app. repeat split.
      * exact Hnodup.
      * intros lk Hlk Hin. apply list_elem_of_singleton in Hin. subst lk.
        apply list_elem_of_fmap in Hlk as (k & Hk & Hkin).
        apply Hnew. unfold key. rewrite Hk. apply Hkeys, Hkin.
      * apply NoDup_singleton.
  - (* an empty item or a name seen before: the state is kept *)
    assert (Hcase : ¬ truthy (key x) ∨ key x ∈ st.1).
    { destruct (decide (truthy (key x))) as [Htr|Hntr]; [|left; exact Hntr].
      right. destruct (decide (key x ∈ st.1)) as [Hin|Hnin]; [exact Hin|].
      exfalso. apply Hold. split; assumption. }
    assert (Hnot : ¬ (truthy (strip x) ∧ ∀ y, y ∈ items → key y ≠ key x)).
    { intros [Htr Hnone]. destruct Hcase as [Hntr|Hin].
      - apply Hntr. intros Hnil. apply Htr. apply lower_nil_iff. exact Hnil.
      - apply Hseen in Hin as (_ & y & Hy & Hk). exact (Hnone y Hy Hk). }
    split.
    + intros lk. rewrite Hseen. split.
      * intros (Hne & y & Hy & Hk). split; [exact Hne|].
        exists y. split; [apply elem_of_app; left; exact Hy|exact Hk].
      * intros (Hne & y & Hy & Hk). split; [exact Hne|].
        apply elem_of_app in Hy as [Hy|Hy]; [eauto|].
        apply list_elem_of_singleton in Hy. subst y.
        destruct Hcase as [Hntr|Hin].
        -- exfalso. apply Hntr. unfold truthy. rewrite Hk. exact Hne.
        -- apply Hseen in Hin as (_ & z & Hz & Hkz). exists z.
           split; [exact Hz|congruence].
    + exists idxs. repeat split.
      * exact Hsorted.
      * intros Hi. apply first_seen_snoc. left. apply Hidx, Hi.
      * intros Hi. apply first_seen_snoc in Hi as [Hi|(_ & Htr & Hnone)].
        -- apply Hidx, Hi.
        -- exfalso. apply Hnot. split; assumption.
      * apply picks_weaken, Hpicks.
    + exact Hkeys.
    + exact Hnodup.
Qed.

Lemma dedupe_inv_run items :
  dedupe_inv items (foldl dedupe_step (∅, []) items).
Proof.
  induction items as [|x items IH] using rev_ind; [apply dedupe_inv_init|].
  rewrite foldl_snoc. apply dedupe_inv_step, IH.
Qed.

(** What the loop appends is a trimmed item, and never the empty string. *)
Lemma dedupe_elem items k :
  k ∈ _dedupe_keep_order items → k ≠ [] ∧ ∃ x, x ∈ items ∧ k = strip x.
Proof.
  intros Hk. destruct (dedupe_inv_run items) as [Hseen (idxs & _ & _ & Hpicks) Hkeys _].
  unfold _dedupe_keep_order in Hk.
  split.
  - destruct (proj1 (Hseen _) (Hkeys _ Hk)) as [Hne _].
    intros ->. apply Hne. apply lower_nil_iff. reflexivity.
  - unfold picks in Hpicks.
    apply list_elem_of_lookup in Hk as [n Hn].
    destruct (Forall2_lookup_r _ _ _ _ _ Hpicks Hn) as (i & _ & z & Hz & ->).
    exists z. split; [|reflexivity]. apply list_elem_of_lookup. eauto.
Qed.

End DedupeFacts.

(** ** Facts about the collations and [ORDER BY] *)

Section CollationFacts.

Lemma binary_cmp_eq (a b : str) : binary_cmp a b = Eq ↔ a = b.
Proof.
  revert b. induction a as [|x a IH]; intros [|y b]; simpl; try easy.
  destruct (N.compare_spec x y) as [->|Hlt|Hgt].
  - rewrite IH. split; [intros ->; reflexivity|congruence].
  - split; [discriminate|]. intros [= -> _]. lia.
  - split; [discriminate|]. intros [= -> _]. lia.
Qed.

(** [binary_cmp] decides the lexicographic order of code point sequences. *)
Lemma binary_cmp_lt (a b : str) : binary_cmp a b = Lt ↔ lexico a b.
Proof.
  revert b. induction a as [|x a IH]; intros [|y b]; simpl; try easy.
  change (lexico (x :: a) (y :: b)) with ((x < y)%N ∨ x = y ∧ lexico a b).
  destruct (N.compare_spec x y) as [->|Hlt|Hgt].
  - rewrite IH. split; [auto|]. intros [Hlt|[_ Hl]]; [lia|exact Hl].
  - split; [auto|reflexivity].
  - split; [discriminate|]. intros [Hlt|[-> _]]; lia.
Qed.

Lemma binary_cmp_flip (a b : str) : binary_cmp b a = CompOpp (binary_cmp a b).
Proof.
  revert b. induction a as [|x a IH]; intros [|y b]; simpl; try reflexivity.
  rewrite (N.compare_antisym x y).
  destruct (N.compare x y); simpl; [apply IH|reflexivity|reflexivity].
Qed.

Lemma binary_cmp_not_gt (a b : str) :
  binary_cmp a b ≠ Gt ↔ a = b ∨ lexico a b.
Proof.
  rewrite <- binary_cmp_eq, <- binary_cmp_lt.
  destruct (binary_cmp a b); split; try tauto; try discriminate.
  intros [|]; discriminate.
Qed.

Lemma binary_cmp_trans (a b c : str) :
  binary_cmp a b ≠ Gt → binary_cmp b c ≠ Gt → binary_cmp a c ≠ Gt.
Proof.
  revert b c. induction a as [|x a IH]; intros [|y b] [|z c]; simpl; try easy.
  destruct (N.compare_spec x y) as [->|Hxy|Hxy]; [|
    |intros Hab; contradiction].
  - destruct (N.compare y z); [apply IH|discriminate|intros _ Hbc; contradiction].
  - intros _.
    destruct (N.compare_spec y z) as [->|Hyz|Hyz]; [| |intros Hbc; contradiction].
    + intros _. rewrite (proj2 (N.compare_lt_iff x z) Hxy). discriminate.
    + intros _. rewrite (proj2 (N.compare_lt_iff x z)) by lia. discriminate.
Qed.

Lemma binary_cmp_total (a b : str) : binary_cmp a b = Gt → binary_cmp b a ≠ Gt.
Proof. intros Hgt. rewrite binary_cmp_flip, Hgt. discriminate. Qed.

End CollationFacts.

Lemma StronglySorted_weaken {A : Type} (R R' : A → A → Prop) (l : list A) :
  (∀ x y, R x y → R' x y) → StronglySorted R l → StronglySorted R' l.
Proof.
  intros Himpl. induction 1 as [|x l _ IH Hall]; constructor; [exact IH|].
  eapply Forall_impl; [exact Hall|]. intros y. apply Himpl.
Qed.

Section OrderByFacts.
Context {A : Type} (cmp : A → A → comparison).

Hypothesis cmp_total : ∀ x y, cmp x y = Gt → before cmp y x.
Hypothesis cmp_trans : ∀ x y z, before cmp x y → before cmp y z → before cmp x z.

Lemma insert_row_perm (x : A) (rows : list A) : insert_row cmp x rows ≡ₚ x :: rows.
Proof.
  induction rows as [|y rows IH]; simpl; [reflexivity|].
  destruct (cmp x y); try reflexivity.
  rewrite IH. apply perm_swap.
Qed.

Lemma order_by_perm (rows : list A) : order_by cmp rows ≡ₚ rows.
Proof.
  induction rows as [|x rows IH]; simpl; [reflexivity|].
  unfold order_by in *. simpl. rewrite insert_row_perm, IH. reflexivity.
Qed.

Lemma insert_row_sorted (x : A) (rows : list A) :
  StronglySorted (before cmp) rows → StronglySorted (before cmp) (insert_row cmp x rows).
Proof.
  induction 1 as [|y rows Hsorted IH Hall]; simpl; [repeat constructor|].
  destruct (cmp x y) eqn:Hxy.
  - constructor; [constructor; assumption|].
    assert (Hb : before cmp x y) by (unfold before; rewrite Hxy; discriminate).
    constructor; [exact Hb|].
    eapply Forall_impl; [exact Hall|]. intros z Hz. exact (cmp_trans _ _ _ Hb Hz).
  - constructor; [constructor; assumption|].
    assert (Hb : before cmp x y) by (unfold before; rewrite Hxy; discriminate).
    constructor; [exact Hb|].
    eapply Forall_impl; [exact Hall|]. intros z Hz. exact (cmp_trans _ _ _ Hb Hz).
  - constructor; [exact IH|].
    rewrite insert_row_perm. constructor; [apply cmp_total, Hxy|exact Hall].
Qed.

Lemma order_by_sorted (rows : list A) : StronglySorted (before cmp) (order_by cmp rows).
Proof.
  induction rows as [|x rows IH]; [constructor|].
  unfold order_by in *. simpl. apply insert_row_sorted, IH.
Qed.

End OrderByFacts.

(** ** The list normaliser: what the specification states *)

Local Open Scope N_scope.

Lemma split_elem (sep c : char) (s p : str) :
  p ∈ split sep s → c ∈ p → c ∈ s.
Proof.
  intros Hp Hc. rewrite <- (join_split sep s).
  pose proof (split_not_nil sep s) as Hnn.
  induction (split sep s) as [|q qs IH]; [contradiction|].
  destruct qs as [|q' qs].
  - apply list_elem_of_singleton in Hp. subst q. exact Hc.
  - change (join [sep] (q :: q' :: qs)) with (q ++ sep :: join [sep] (q' :: qs)).
    apply elem_of_app. apply elem_of_cons in Hp as [->|Hp]; [left; exact Hc|].
    right. apply elem_of_cons. right. apply IH; [exact Hp|discriminate].
Qed.

Lemma split_csv_blank (text : str) :
  Forall (λ c, c = comma ∨ isspace c = true) text → _split_csv (Some text) = [].
Proof.
  intros Hblank. unfold _split_csv, or_empty.
  assert (Hnone : ∀ p, p ∈ split comma text → ¬ truthy (strip p)).
  { intros p Hp Htruthy. apply Htruthy. apply strip_all_space.
    apply Forall_forall. intros c Hc.
    rewrite Forall_forall in Hblank.
    destruct (Hblank c (split_elem comma c text p Hp Hc)) as [->|Hsp]; [|exact Hsp].
    pose proof (split_pieces_no_sep comma text) as Hall.
    rewrite Forall_forall in Hall. destruct (Hall p Hp Hc). }
  induction (split comma text) as [|p ps IH]; [reflexivity|].
  rewrite filter_cons_False by (apply Hnone; left).
  apply IH. intros q Hq. apply Hnone. right. exact Hq.
Qed.

Lemma dedupe_clean `{Lowercase} (items : list str) :
  Forall clean_name items → Forall clean_name (_dedupe_keep_order items).
Proof.
  intros Hall. apply Forall_forall. intros k Hk.
  apply dedupe_elem in Hk as (_ & x & Hx & ->).
  rewrite Forall_forall in Hall. destruct (Hall x Hx) as (Hs & Hne & Hc).
  rewrite Hs. repeat split; assumption.
Qed.

(** C3: [_dedupe_keep_order] returns the trimmed items at the positions
    that see a name for the first time, in the order of these positions: an
    item is kept when it is not empty once trimmed and no earlier item has
    its key (the lower-cased trimmed form), so the first occurrence gives
    the casing; no two items of the result have the same lower-cased form;
    and [["Ana", "ana", "Bob"]] gives [["Ana", "Bob"]]. *)
Theorem dedupe_keep_order_first_seen :
  (∀ (L : Lowercase) (items : list str),
      ∃ idxs : list nat,
        StronglySorted lt idxs
        ∧ (∀ i, i ∈ idxs ↔ first_seen items i)
        ∧ picks items idxs (_dedupe_keep_order items)
        ∧ NoDup (lower <$> _dedupe_keep_order items))
  ∧ _dedupe_keep_order (H := latin1_lowercase) [py "Ana"; py "ana"; py "Bob"]
    = [py "Ana"; py "Bob"].
Proof.
  split; [|vm_compute; reflexivity].
  intros L items.
  destruct (dedupe_inv_run items) as [_ (idxs & Hsorted & Hidx & Hpicks) _ Hnodup].
  exists idxs. repeat split; try assumption; apply Hidx.
Qed.

(** C4: every text is a list of comma-free pieces joined with commas, and
    [_split_csv] returns these pieces trimmed, without the empty ones, in
    their order and as often as they occur; ["a, b ,,c"] gives
    [["a", "b", "c"]], and a name written twice comes back twice. *)
Theorem split_csv_trimmed_pieces :
  (∀ text : str, ∃ pieces : list str,
      pieces ≠ [] ∧ Forall (λ p, comma ∉ p) pieces ∧ text = join [comma] pieces)
  ∧ (∀ pieces : list str,
      pieces ≠ [] → Forall (λ p, comma ∉ p) pieces →
      _split_csv (Some (join [comma] pieces)) = filter truthy (strip <$> pieces))
  ∧ _split_csv (Some (py "a, b ,,c")) = [py "a"; py "b"; py "c"]
  ∧ _split_csv (Some (py "a,b,a")) = [py "a"; py "b"; py "a"].
Proof.
  split; [|split; [|split; vm_compute; reflexivity]].
  - intros text. exists (split comma text). split; [apply split_not_nil|].
    split; [apply split_pieces_no_sep|]. symmetry. apply join_split.
  - intros pieces Hnn Hall. unfold _split_csv, or_empty.
    rewrite split_join by assumption. clear Hnn Hall.
    induction pieces as [|p ps IH]; [reflexivity|].
    rewrite fmap_cons. destruct (decide (truthy (strip p))) as [Hp|Hp].
    + rewrite !filter_cons_True by exact Hp. rewrite fmap_cons, IH. reflexivity.
    + rewrite !filter_cons_False by exact Hp. exact IH.
Qed.

Lemma split_csv_trimmed_pieces_witness :
  _split_csv (Some (join [comma] [py " x "; []; py "y"])) = [py "x"; py "y"].
Proof.
  rewrite (proj1 (proj2 split_csv_trimmed_pieces)).
  - vm_compute. reflexivity.
  - discriminate.
  - repeat constructor; vm_compute; intros Hin; inversion Hin; subst;
      repeat match goal with
             | Hc : _ ∈ _ |- _ => inversion Hc; clear Hc; subst
             end.
Defined.

(** C5: what [", ".join] makes of a deduplicated [_split_csv] result reads
    back through [_split_csv] as that same list, for every input, [None]
    included. *)
Theorem split_csv_join_dedupe_roundtrip :
  ∀ (L : Lowercase) (x : option str),
    _split_csv (Some (join_csv (_dedupe_keep_order (_split_csv x))))
    = _dedupe_keep_order (_split_csv x).
Proof.
  intros L x. unfold join_csv.
  apply split_csv_join_clean, dedupe_clean, split_csv_clean.
Qed.

(** C10: [_split_csv] returns the empty list for [None] and for every text
    of commas and whitespace only, and [render_badges_csv] the empty string
    for [None]: an absent [liked_by] or [tags] value raises nothing. *)
Theorem split_csv_absent_or_blank :
  _split_csv None = []
  ∧ render_badges_csv None = []
  ∧ ∀ text : str,
      Forall (λ c, c = comma ∨ isspace c = true) text → _split_csv (Some text) = [].
Proof.
  split; [reflexivity|]. split; [reflexivity|]. exact split_csv_blank.
Qed.

Lemma split_csv_absent_or_blank_witness : _split_csv (Some (py " , ,,  ")) = [].
Proof.
  apply (proj2 (proj2 split_csv_absent_or_blank)).
  repeat (apply Forall_cons; split;
          [first [left; reflexivity|right; reflexivity]|]).
  apply Forall_nil. exact I.
Defined.

(** ** The store: what the specification states *)

Local Open Scope Z_scope.

Lemma nocase_cmp_before (a b : str) : before nocase_cmp a b ↔ nocase_le a b.
Proof. unfold before, nocase_cmp, nocase_le. apply binary_cmp_not_gt. Qed.

Lemma get_recipes_no_filter (db : database) :
  get_recipes [] [] db
  = order_by (λ a b, nocase_cmp (r_name a) (r_name b)) (recipes db).
Proof. reflexivity. Qed.

(** C6, refuted as stated: from a new file with the recipes "éa" and "Éz",
    [get_recipes] with both filters empty returns "Éz" before "éa", and
    that is not the ascending order of the names compared
    case-insensitively, in which "éa" comes first. *)
Lemma get_recipes_accented_not_case_insensitive :
  (db ← accented_recipes; Ok (r_name <$> get_recipes [] [] db))
  = Ok [name_Ez; name_ea]
  ∧ ¬ StronglySorted (case_insensitive_le (H := latin1_lowercase))
        [name_Ez; name_ea].
Proof.
  split; [vm_compute; reflexivity|].
  intros Hsorted. apply StronglySorted_cons in Hsorted as [Hall _].
  apply Forall_cons in Hall as [[Heq|Hlt] _].
  - vm_compute in Heq. discriminate.
  - apply binary_cmp_lt in Hlt. vm_compute in Hlt. discriminate.
Qed.

(** C6 (amended): with both filters empty [get_recipes] returns the rows of
    [recipes], every one of them once, in ascending order of the names
    under [NOCASE], which sets aside the case of the 26 ASCII letters and
    compares every other character by its code point; the recipes "banana",
    "Apple", "cherry" come back as "Apple", "banana", "cherry", the recipes
    "Banana", "apple" as "apple", "Banana", and the recipes "éa", "Éz" as
    "Éz", "éa". *)
Theorem get_recipes_all_by_name :
  (∀ db : database,
      get_recipes [] [] db ≡ₚ recipes db
      ∧ StronglySorted (λ a b, nocase_le (r_name a) (r_name b)) (get_recipes [] [] db))
  ∧ (db ← three_recipes; Ok (r_name <$> get_recipes [] [] db))
    = Ok [py "Apple"; py "banana"; py "cherry"]
  ∧ (db ← mixed_case_recipes; Ok (r_name <$> get_recipes [] [] db))
    = Ok [py "apple"; py "Banana"]
  ∧ (db ← accented_recipes; Ok (r_name <$> get_recipes [] [] db))
    = Ok [name_Ez; name_ea].
Proof.
  split; [|split; [|split]; vm_compute; reflexivity].
  intros db. rewrite get_recipes_no_filter. split; [apply order_by_perm|].
  eapply StronglySorted_weaken;
    [|apply (order_by_sorted (λ a b, nocase_cmp (r_name a) (r_name b)))].
  - intros a b Hab. apply nocase_cmp_before. exact Hab.
  - intros a b Hgt. apply binary_cmp_total. exact Hgt.
  - intros a b c. apply binary_cmp_trans.
Qed.

(** The first row of [ORDER BY ate_on DESC] is a date that none exceeds. *)
Lemma last_date_is_max (dates : list str) :
  dates ≠ [] →
  ∃ d, head (take 1 (order_by (desc binary_cmp) dates)) = Some d
       ∧ d ∈ dates ∧ ∀ d', d' ∈ dates → d' = d ∨ lexico d' d.
Proof.
  intros Hne.
  pose proof (order_by_perm (desc binary_cmp) dates) as Hperm.
  assert (Hsorted : StronglySorted (before (desc binary_cmp))
                      (order_by (desc binary_cmp) dates)).
  { apply order_by_sorted.
    - intros x y. unfold before, desc. apply binary_cmp_total.
    - intros x y z Hxy Hyz. unfold before, desc in *.
      exact (binary_cmp_trans z y x Hyz Hxy). }
  destruct (order_by (desc binary_cmp) dates) as [|d rest].
  - apply Permutation_nil in Hperm. congruence.
  - exists d. split; [reflexivity|]. split; [rewrite <- Hperm; left|].
    intros d' Hd'. rewrite <- Hperm in Hd'.
    apply StronglySorted_cons in Hsorted as [Hall _].
    apply elem_of_cons in Hd' as [->|Hd']; [left; reflexivity|].
    rewrite Forall_forall in Hall. apply binary_cmp_not_gt. exact (Hall d' Hd').
Qed.

Lemma get_meal_stats_unfold (r : Z) (db : database) :
  get_meal_stats r db
  = (Z.of_nat (length (dates_of r db)),
     match head (take 1 (order_by (desc binary_cmp) (dates_of r db))) with
     | Some ate_on => ate_on
     | None => em_dash
     end).
Proof. unfold get_meal_stats, dates_of, meals_of. rewrite length_fmap. reflexivity. Qed.

(** C7: [get_meal_stats] returns [(0, "—")] for a recipe id that no meal
    refers to; otherwise the number of meals that refer to it and, among
    their [ate_on] values, one that no other exceeds in lexicographic
    order; after meals on "2024-01-01" and "2024-03-05" it returns
    [(2, "2024-03-05")]. *)
Theorem get_meal_stats_count_and_last :
  (∀ (r : Z) (db : database),
      (dates_of r db = [] → get_meal_stats r db = (0, em_dash))
      ∧ (dates_of r db ≠ [] →
         ∃ d, get_meal_stats r db = (Z.of_nat (length (meals_of r db)), d)
              ∧ d ∈ dates_of r db
              ∧ ∀ d', d' ∈ dates_of r db → d' = d ∨ lexico d' d))
  ∧ (db ← two_meals; Ok (get_meal_stats 1 db)) = Ok (2, py "2024-03-05").
Proof.
  split; [|vm_compute; reflexivity].
  intros r db. rewrite get_meal_stats_unfold. split.
  - intros ->. reflexivity.
  - intros Hne. destruct (last_date_is_max _ Hne) as (d & Hhead & Hin & Hmax).
    exists d. rewrite Hhead. unfold dates_of at 1. rewrite length_fmap. auto.
Qed.

Lemma get_meal_stats_count_and_last_witness :
  get_meal_stats 7 empty_db = (0, em_dash).
Proof.
  apply (proj1 (proj1 get_meal_stats_count_and_last 7 empty_db)). reflexivity.
Defined.

(** *** Foreign keys *)

(** What the schema asks for happens on a connection that enforces foreign
    keys: the meals of a deleted recipe go with it, and a meal for an
    unknown recipe is refused. *)
Lemma delete_recipe_row_cascades (r : Z) (db : database) :
  r ∈ (r_id <$> recipes db) →
  meals_of r (delete_recipe_row {| foreign_keys := true |} r db) = [].
Proof.
  intros Hin. unfold meals_of, delete_recipe_row. simpl.
  apply list_elem_of_fmap in Hin as (row & Hr & Hrow).
  assert (Hdel : r ∈ r_id <$> filter (λ r0, r_id r0 = r) (recipes db)).
  { apply list_elem_of_fmap. exists row. split; [exact Hr|].
    apply list_elem_of_filter. split; [symmetry; exact Hr|exact Hrow]. }
  induction (meals db) as [|m ms IH]; [reflexivity|].
  destruct (decide (m_recipe_id m = r)) as [Hm|Hm].
  - rewrite (filter_cons_False _ m) by (rewrite Hm; intros Hnot; exact (Hnot Hdel)).
    exact IH.
  - rewrite (filter_cons (λ m0, m_recipe_id m0 ∉ _)).
    destruct (decide _); [|exact IH].
    rewrite filter_cons_False by exact Hm. exact IH.
Qed.

Lemma insert_meal_enforced (r : Z) (ate_on notes : str) (db : database) :
  r ∉ (r_id <$> recipes db) →
  insert_meal {| foreign_keys := true |} r ate_on notes db = Raise IntegrityError.
Proof.
  intros Hnot. unfold insert_meal. simpl.
  rewrite bool_decide_eq_true_2 by exact Hnot. reflexivity.
Qed.

Lemma log_meal_meals (r : Z) (ate_on notes : str) (db db' : database) :
  log_meal r ate_on notes db = Ok db' →
  ∃ id, meals db' = meals db ++ [{| m_id := id; m_recipe_id := r;
                                    m_ate_on := ate_on; m_notes := Some notes |}].
Proof.
  unfold log_meal, insert_meal. simpl.
  destruct (fresh_rowid _ _) as [id|e]; simpl; [|discriminate].
  intros [= <-]. exists id. reflexivity.
Qed.

Lemma log_meals_length (r : Z) (dates : list str) (db db' : database) :
  log_meals r dates db = Ok db' →
  length (meals_of r db') = (length (meals_of r db) + length dates)%nat.
Proof.
  revert db. induction dates as [|d dates IH]; intros db; simpl.
  - intros [= <-]. lia.
  - destruct (log_meal r d [] db) as [db1|e] eqn:Hlog; simpl; [|discriminate].
    intros Hrest. rewrite (IH _ Hrest).
    apply log_meal_meals in Hlog as [id Hid].
    unfold meals_of. rewrite Hid, filter_app, length_app.
    rewrite filter_cons_True by reflexivity. simpl. lia.
Qed.

(** C1 (as the program behaves): [delete_recipe] leaves [meals] as it is,
    so [get_meal_stats] answers as before the deletion; after [N] calls of
    [log_meal] for a recipe and its deletion the count is [N] more than it
    was; and from a new file, one recipe, two meals and the deletion give
    [(2, "2024-03-05")]. *)
Theorem delete_recipe_leaves_meals :
  (∀ (r : Z) (db : database),
      meals (delete_recipe r db) = meals db
      ∧ get_meal_stats r (delete_recipe r db) = get_meal_stats r db)
  ∧ (∀ (r : Z) (dates : list str) (db db' : database),
      log_meals r dates db = Ok db' →
      (get_meal_stats r (delete_recipe r db')).1
      = (get_meal_stats r db).1 + Z.of_nat (length dates))
  ∧ (db ← two_meals; Ok (get_meal_stats 1 (delete_recipe 1 db)))
    = Ok (2, py "2024-03-05").
Proof.
  split; [|split; [|vm_compute; reflexivity]].
  - intros r db. split; reflexivity.
  - intros r dates db db' Hlog.
    change (get_meal_stats r (delete_recipe r db')) with (get_meal_stats r db').
    unfold get_meal_stats. simpl. fold (meals_of r db') (meals_of r db).
    rewrite (log_meals_length _ _ _ _ Hlog). lia.
Qed.

Lemma delete_recipe_leaves_meals_witness :
  (get_meal_stats 1 (delete_recipe 1
     {| recipes := []; seq_recipes := 0; seq_meals := 1;
        meals := [{| m_id := 1; m_recipe_id := 1; m_ate_on := py "2024-01-01";
                     m_notes := Some [] |}] |})).1
  = 0 + Z.of_nat (length [py "2024-01-01"]).
Proof.
  apply (proj1 (proj2 delete_recipe_leaves_meals) 1 [py "2024-01-01"] empty_db).
  reflexivity.
Defined.

(** C2 (as the program behaves): [log_meal] for an id that [recipes] does
    not hold inserts the meal whenever a rowid is left; on a new file
    [log_meal] for recipe 42 and "2024-01-01" returns with one row in [meals]. *)
Theorem log_meal_unknown_recipe_inserts :
  (∀ (r : Z) (ate_on notes : str) (db : database) (id : Z),
      (r ∉ (r_id <$> recipes db)) →
      fresh_rowid (seq_meals db) (m_id <$> meals db) = Ok id →
      ∃ db', log_meal r ate_on notes db = Ok db'
             ∧ meals db' = meals db ++ [{| m_id := id; m_recipe_id := r;
                                           m_ate_on := ate_on;
                                           m_notes := Some notes |}])
  ∧ (42 ∉ (r_id <$> recipes (init_db None)))
  ∧ log_meal 42 (py "2024-01-01") [] (init_db None)
    = Ok {| recipes := [];
            meals := [{| m_id := 1; m_recipe_id := 42;
                         m_ate_on := py "2024-01-01"; m_notes := Some [] |}];
            seq_recipes := 0;
            seq_meals := 1 |}.
Proof.
  split; [|split; [apply not_elem_of_nil|vm_compute; reflexivity]].
  intros r ate_on notes db id _ Hid.
  unfold log_meal, insert_meal. simpl. rewrite Hid. simpl.
  eexists. split; reflexivity.
Qed.

Lemma log_meal_unknown_recipe_inserts_witness :
  ∃ db', log_meal 5 (py "2024-02-02") (py "lekker") empty_db = Ok db'
         ∧ meals db' = [{| m_id := 1; m_recipe_id := 5;
                           m_ate_on := py "2024-02-02";
                           m_notes := Some (py "lekker") |}].
Proof.
  apply (proj1 log_meal_unknown_recipe_inserts 5 (py "2024-02-02") (py "lekker")
           empty_db 1).
  - apply not_elem_of_nil.
  - reflexivity.
Defined.

(** *** The form *)

(** C8: a click on "Opslaan" with a name that is empty once trimmed leaves
    the database and the form as they are, shows the warning "Naam is
    verplicht." and nothing else, and raises nothing; [add_recipe] is not
    reached. *)
Theorem opslaan_blank_name_rejected :
  ∀ (L : Lowercase) (f : form) (db : database),
    strip (new_name f) = [] →
    opslaan f db
    = {| db_after := db; form_after := f;
         shown := [Warning "Naam is verplicht."]; raised := None |}.
Proof.
  intros L f db Hblank. unfold opslaan.
  destruct (decide (truthy (strip (new_name f)))) as [Htruthy|_]; [|reflexivity].
  contradiction.
Qed.

Lemma opslaan_blank_name_rejected_witness :
  opslaan {| new_name := py "   "; new_ing := py "ui"; new_instr := [];
             new_tags := []; new_selected_likers := [py "Ana"];
             new_likers_csv := [] |} empty_db
  = {| db_after := empty_db;
       form_after := {| new_name := py "   "; new_ing := py "ui"; new_instr := [];
                        new_tags := []; new_selected_likers := [py "Ana"];
                        new_likers_csv := [] |};
       shown := [Warning "Naam is verplicht."];
       raised := None |}.
Proof.
  apply (opslaan_blank_name_rejected latin1_lowercase). reflexivity.
Defined.

(** *** Export *)

(** C9, refuted as stated: "users" is not on the allow-list, and
    [export_table] does not reject it: the engine is handed
    [SELECT * FROM users]. *)
Lemma export_table_unlisted_name_handed :
  (py "users" ∉ allow_list)
  ∧ (∀ e, export_table (py "users") (init_db None) ≠ Rejected e)
  ∧ ∃ reply, export_table (py "users") (init_db None)
             = Handed (py "SELECT * FROM users") reply.
Proof.
  split; [|split].
  - intros Hin. unfold allow_list in Hin.
    repeat (apply elem_of_cons in Hin as [Heq|Hin];
            [vm_compute in Heq; discriminate|]).
    exact (not_elem_of_nil _ Hin).
  - intros e. discriminate.
  - eexists. reflexivity.
Qed.

(** C9 (amended): [export_table] checks no name: whatever the table name,
    the engine is handed [SELECT * FROM] followed by that name; for
    "recipes" and "meals", the names the two export buttons pass, the reply
    is every row of that table. *)
Theorem export_table_hands_every_name :
  (∀ (table_name : str) (db : database),
      ∃ reply, export_table table_name db
               = Handed (py "SELECT * FROM " ++ table_name) reply)
  ∧ (∀ db : database,
      export_table (py "recipes") db
      = Handed (py "SELECT * FROM recipes") (Some (RecipeRows (recipes db))))
  ∧ (∀ db : database,
      export_table (py "meals") db
      = Handed (py "SELECT * FROM meals") (Some (MealRows (meals db)))).
Proof.
  split; [|split].
  - intros table_name db. eexists. reflexivity.
  - intros db. reflexivity.
  - intros db. reflexivity.
Qed.

(** ** Further properties of the list normaliser *)

Local Open Scope N_scope.

Section DedupeMore.
Context `{Lowercase}.

(** The loop only appends to [out]. *)
Lemma dedupe_run_extends (items : list str) (st : gset (list N) * list str) :
  ∃ rest, (foldl dedupe_step st items).2 = st.2 ++ rest.
Proof.
  revert st. induction items as [|x items IH]; intros st; simpl.
  - exists []. rewrite app_nil_r. reflexivity.
  - destruct (IH (dedupe_step st x)) as [rest Hrest]. rewrite Hrest.
    unfold dedupe_step.
    destruct (decide _); simpl; [|exists rest; reflexivity].
    exists (strip x :: rest). rewrite <- app_assoc. reflexivity.
Qed.

(** On trimmed names with pairwise different, non-empty lower-cased forms,
    none of them seen before, the loop appends every one. *)
Lemma dedupe_run_keeps_all (items : list str) (st : gset (list N) * list str) :
  Forall (λ k, strip k = k ∧ lower k ≠ [] ∧ lower k ∉ st.1) items →
  NoDup (lower <$> items) →
  (foldl dedupe_step st items).2 = st.2 ++ items.
Proof.
  revert st. induction items as [|x items IH]; intros st Hall Hnodup; simpl.
  - rewrite app_nil_r. reflexivity.
  - apply Forall_cons in Hall as [(Hs & Hne & Hnew) Hall].
    rewrite fmap_cons in Hnodup. apply NoDup_cons in Hnodup as [Hx Hnodup].
    assert (Hstep : dedupe_step st x = (st.1 ∪ {[lower x]}, st.2 ++ [x])).
    { unfold dedupe_step. rewrite Hs.
      destruct (decide _) as [_|Hno]; [reflexivity|].
      exfalso. apply Hno. split; assumption. }
    rewrite Hstep, IH; simpl.
    + rewrite <- app_assoc. reflexivity.
    + apply Forall_forall. intros k Hk. rewrite Forall_forall in Hall.
      destruct (Hall k Hk) as (Hks & Hkne & Hknew). repeat split; try assumption.
      intros Hin. apply elem_of_union in Hin as [Hin|Hin]; [exact (Hknew Hin)|].
      apply elem_of_singleton in Hin. apply Hx. rewrite <- Hin.
      apply list_elem_of_fmap. exists k. split; [reflexivity|exact Hk].
    + exact Hnodup.
Qed.

Lemma dedupe_nodup (items : list str) : NoDup (lower <$> _dedupe_keep_order items).
Proof. destruct (dedupe_inv_run items) as [_ _ _ Hnodup]. exact Hnodup. Qed.

(** The names [_dedupe_keep_order] returns are clean as soon as the items
    hold no comma. *)
Lemma dedupe_clean_no_comma (items : list str) :
  Forall (λ x, comma ∉ x) items → Forall clean_name (_dedupe_keep_order items).
Proof.
  intros Hall. apply Forall_forall. intros k Hk.
  apply dedupe_elem in Hk as (Hne & x & Hx & ->).
  rewrite Forall_forall in Hall. repeat split.
  - apply strip_idemp.
  - exact Hne.
  - apply strip_not_elem, Hall, Hx.
Qed.

End DedupeMore.

(** X1: every name [_split_csv] returns is trimmed, not empty and without
    comma; and a list of such names, joined with [", "], is read back by
    [_split_csv] as that list. *)
Theorem split_csv_join_names_roundtrip :
  (∀ csv_text : option str, Forall clean_name (_split_csv csv_text))
  ∧ (∀ items : list str,
      Forall clean_name items → _split_csv (Some (join_csv items)) = items).
Proof.
  split; [exact split_csv_clean|].
  intros items Hall. unfold join_csv. apply split_csv_join_clean, Hall.
Qed.

Lemma split_csv_join_names_roundtrip_witness :
  _split_csv (Some (join_csv [py "Ana"; py "de buurman"])) = [py "Ana"; py "de buurman"].
Proof.
  apply (proj2 split_csv_join_names_roundtrip).
  repeat (apply Forall_cons; split;
          [split; [reflexivity|split; [discriminate|]]|]); [| |apply Forall_nil; exact I];
    intros Hin;
    repeat (apply elem_of_cons in Hin as [Heq|Hin]; [vm_compute in Heq; discriminate|]);
    exact (not_elem_of_nil _ Hin).
Defined.

(** X2: the names of the first list keep their places when a second list
    is put behind it: [_dedupe_keep_order a] is a prefix of
    [_dedupe_keep_order (a ++ b)], so a selected name wins over a name typed
    after it. *)
Theorem dedupe_keep_order_app_prefix :
  ∀ (L : Lowercase) (a b : list str),
    _dedupe_keep_order a `prefix_of` _dedupe_keep_order (a ++ b).
Proof.
  intros L a b. unfold _dedupe_keep_order. rewrite foldl_app.
  destruct (dedupe_run_extends b (foldl dedupe_step (∅, []) a)) as [rest Hrest].
  exists rest. exact Hrest.
Qed.

(** X3: [_dedupe_keep_order] changes nothing in a list it has returned. *)
Theorem dedupe_keep_order_idempotent :
  ∀ (L : Lowercase) (items : list str),
    _dedupe_keep_order (_dedupe_keep_order items) = _dedupe_keep_order items.
Proof.
  intros L items. unfold _dedupe_keep_order at 1.
  rewrite dedupe_run_keeps_all; [reflexivity| |apply dedupe_nodup].
  apply Forall_forall. intros k Hk.
  apply dedupe_elem in Hk as (Hne & x & _ & ->). repeat split.
  - apply strip_idemp.
  - intros Hnil. apply Hne. apply lower_nil_iff. exact Hnil.
  - apply not_elem_of_empty.
Qed.

(** ** Further properties of [LIKE] and [get_recipes] *)

Local Open Scope N_scope.

Lemma like_percent_unfold (p t : str) :
  like (percent :: p) t
  = like p t || match t with
                | [] => false
                | _ :: t' => like (percent :: p) t'
                end.
Proof. destruct t; reflexivity. Qed.

(** [%] in front: the rest of the pattern matches some suffix. *)
Lemma like_percent_iff (p t : str) :
  like (percent :: p) t = true ↔ ∃ pre s, t = pre ++ s ∧ like p s = true.
Proof.
  induction t as [|c t IH]; rewrite like_percent_unfold.
  - rewrite orb_false_r. split.
    + intros Hp. exists [], []. auto.
    + intros (pre & s & Hts & Hs). symmetry in Hts.
      apply app_eq_nil in Hts as [_ ->]. exact Hs.
  - rewrite orb_true_iff, IH. split.
    + intros [Hp|(pre & s & -> & Hs)].
      * exists [], (c :: t). auto.
      * exists (c :: pre), s. auto.
    + intros (pre & s & Hts & Hs). destruct pre as [|d pre].
      * left. simpl in Hts. subst s. exact Hs.
      * right. injection Hts as _ ->. exists pre, s. auto.
Qed.

Lemma like_percent_only (t : str) : like [percent] t = true.
Proof. apply like_percent_iff. exists t, []. rewrite app_nil_r. auto. Qed.

Lemma like_cons_literal (c : char) (p t : str) :
  c ≠ percent → c ≠ underscore →
  like (c :: p) t = true
  ↔ ∃ d t', t = d :: t' ∧ nocase_fold c = nocase_fold d ∧ like p t' = true.
Proof.
  intros Hp Hu. simpl.
  rewrite (proj2 (N.eqb_neq c percent) Hp), (proj2 (N.eqb_neq c underscore) Hu).
  destruct t as [|d t']; simpl.
  - split; [discriminate|]. intros (? & ? & Hnil & _). discriminate.
  - rewrite andb_true_iff, N.eqb_eq. split.
    + intros [Hcd Ht']. exists d, t'. auto.
    + intros (d' & t'' & [= <- <-] & Hcd & Ht'). auto.
Qed.

(** A wildcard-free text followed by [%]: the text is a prefix, up to the
    case of ASCII letters. *)
Lemma like_literal_prefix (q t : str) :
  literal q →
  like (q ++ [percent]) t = true
  ↔ ∃ post, nocase_fold <$> t = (nocase_fold <$> q) ++ post.
Proof.
  intros Hq. revert t. induction Hq as [|c q [Hp Hu] _ IH]; intros t.
  - simpl app. split; [|intros _; apply like_percent_only].
    intros _. exists (nocase_fold <$> t). reflexivity.
  - change ((c :: q) ++ [percent]) with (c :: (q ++ [percent])).
    rewrite like_cons_literal by assumption. split.
    + intros (d & t' & -> & Hcd & Ht'). apply IH in Ht' as [post Hpost].
      exists post. rewrite !fmap_cons, Hcd, Hpost. reflexivity.
    + intros [post Hpost]. destruct t as [|d t']; [discriminate|].
      rewrite !fmap_cons in Hpost. injection Hpost as Hcd Hpost.
      exists d, t'. repeat split; [congruence|]. apply IH. exists post. exact Hpost.
Qed.

Lemma like_percent_run (q t : str) :
  Forall (λ c, c = percent) q → like (q ++ [percent]) t = true.
Proof.
  intros Hq. revert t. induction Hq as [|c q -> _ IH]; intros t.
  - apply like_percent_only.
  - change ((percent :: q) ++ [percent]) with (percent :: (q ++ [percent])).
    apply like_percent_iff. exists [], t. split; [reflexivity|apply IH].
Qed.

Lemma list_filter_all {A : Type} (f : A → bool) (rows : list A) :
  (∀ r, f r = true) → List.filter f rows = rows.
Proof.
  intros Hall. induction rows as [|r rows IH]; [reflexivity|].
  simpl. rewrite Hall, IH. reflexivity.
Qed.

(** The [WHERE] clause [get_recipes] builds is [selected_by]. *)
Lemma get_recipes_selected (query liked_filter : str) (db : database) :
  get_recipes query liked_filter db
  = order_by (λ a b, nocase_cmp (r_name a) (r_name b))
             (List.filter (selected_by query liked_filter) (recipes db)).
Proof.
  unfold get_recipes, selected_by.
  destruct query as [|c q], liked_filter as [|d l]; simpl; f_equal;
    first [ symmetry; apply list_filter_all; reflexivity
          | apply List.filter_ext; intros r; rewrite ?andb_true_r; reflexivity ].
Qed.

Lemma list_filter_perm_stdpp {A : Type} (f : A → bool) (rows : list A) (r : A) :
  r ∈ List.filter f rows ↔ r ∈ rows ∧ f r = true.
Proof. rewrite !list_elem_of_In. apply List.filter_In. Qed.

Lemma get_recipes_selects_and_sorts_aux :
  ∀ (query liked_filter : str) (db : database),
    get_recipes query liked_filter db
      ≡ₚ List.filter (selected_by query liked_filter) (recipes db)
    ∧ (∀ r, r ∈ get_recipes query liked_filter db
            ↔ r ∈ recipes db ∧ selected_by query liked_filter r = true)
    ∧ StronglySorted (λ a b, nocase_le (r_name a) (r_name b))
                     (get_recipes query liked_filter db).
Proof.
  intros query liked_filter db. rewrite get_recipes_selected.
  pose proof (order_by_perm (λ a b, nocase_cmp (r_name a) (r_name b))
                (List.filter (selected_by query liked_filter) (recipes db))) as Hperm.
  split; [exact Hperm|]. split.
  - intros r. rewrite Hperm. apply list_filter_perm_stdpp.
  - eapply StronglySorted_weaken;
      [|apply (order_by_sorted (λ a b, nocase_cmp (r_name a) (r_name b)))].
    + intros a b Hab. apply nocase_cmp_before. exact Hab.
    + intros a b Hgt. apply binary_cmp_total. exact Hgt.
    + intros a b c. apply binary_cmp_trans.
Qed.

(** X4: whatever the filters, [get_recipes] returns rows of [recipes], each
    as often as the table holds it, namely those that meet both filters (an
    empty filter is met by every row), in ascending order of the names under
    [NOCASE]. *)
Theorem get_recipes_selects_and_sorts :
  ∀ (query liked_filter : str) (db : database),
    get_recipes query liked_filter db
      ≡ₚ List.filter (selected_by query liked_filter) (recipes db)
    ∧ (∀ r, r ∈ get_recipes query liked_filter db
            ↔ r ∈ recipes db ∧ selected_by query liked_filter r = true)
    ∧ StronglySorted (λ a b, nocase_le (r_name a) (r_name b))
                     (get_recipes query liked_filter db).
Proof. exact get_recipes_selects_and_sorts_aux. Qed.

(** X5: for a query without [%] and [_], the pattern [%query%] matches a
    text exactly when the query occurs in the text, the case of ASCII
    letters set aside. *)
Theorem like_query_is_substring :
  ∀ query text : str,
    literal query →
    like ([percent] ++ query ++ [percent]) text = true
    ↔ ∃ pre post,
        nocase_fold <$> text = pre ++ (nocase_fold <$> query) ++ post.
Proof.
  intros query text Hq. change ([percent] ++ query ++ [percent])
    with (percent :: (query ++ [percent])).
  rewrite like_percent_iff. split.
  - intros (pre & s & -> & Hs). apply like_literal_prefix in Hs as [post Hpost]; [|exact Hq].
    exists (nocase_fold <$> pre), post. rewrite fmap_app, Hpost. reflexivity.
  - intros (pre & post & Hfold).
    apply fmap_app_inv in Hfold as (t1 & t2 & -> & Hrest & ->).
    exists t1, t2. split; [reflexivity|]. apply like_literal_prefix; [exact Hq|].
    exists post. symmetry. exact Hrest.
Qed.

Lemma like_query_is_substring_witness :
  like ([percent] ++ py "past" ++ [percent]) (py "Verse PASTA") = true.
Proof.
  apply (like_query_is_substring (py "past") (py "Verse PASTA")).
  - repeat (apply Forall_cons; split; [split; discriminate|]). apply Forall_nil. exact I.
  - exists (py "verse "), (py "a"). reflexivity.
Defined.

(** X6: a query made of [%] characters only is a wildcard, not a text to
    find: it selects every recipe, as the empty query does. *)
Theorem get_recipes_percent_query_selects_all :
  ∀ (query : str) (db : database),
    Forall (λ c, c = percent) query →
    get_recipes query [] db = get_recipes [] [] db.
Proof.
  intros query db Hq. rewrite !get_recipes_selected. f_equal.
  apply List.filter_ext. intros r. unfold selected_by.
  change ([percent] ++ query ++ [percent]) with (percent :: (query ++ [percent])).
  assert (Hname : like (percent :: query ++ [percent]) (r_name r) = true).
  { apply like_percent_iff. exists [], (r_name r).
    split; [reflexivity|apply like_percent_run, Hq]. }
  rewrite Hname, orb_true_r. reflexivity.
Qed.

Lemma get_recipes_percent_query_selects_all_witness :
  r_name <$> get_recipes (py "%%") [] sample_db = [py "appeltaart"; py "Soep"].
Proof.
  rewrite (get_recipes_percent_query_selects_all (py "%%") sample_db).
  - vm_compute. reflexivity.
  - repeat (apply Forall_cons; split; [reflexivity|]). apply Forall_nil. exact I.
Defined.

(** ** Further properties of the store *)

Local Open Scope Z_scope.

Lemma foldr_max_ge (seq : Z) (ids : list Z) :
  seq ≤ foldr Z.max seq ids ∧ Forall (λ i, i ≤ foldr Z.max seq ids) ids.
Proof.
  induction ids as [|i ids [IHseq IHall]]; simpl.
  - split; [lia|constructor].
  - split; [lia|]. constructor; [lia|].
    eapply Forall_impl; [exact IHall|]. intros j Hj. simpl in Hj. lia.
Qed.

(** A new rowid is larger than the [sqlite_sequence] entry and than every
    rowid of the table. *)
Lemma fresh_rowid_above (seq : Z) (ids : list Z) (id : Z) :
  fresh_rowid seq ids = Ok id → seq < id ∧ Forall (λ i, i < id) ids.
Proof.
  unfold fresh_rowid. destruct (foldr_max_ge seq ids) as [Hseq Hall].
  destruct (_ <? _); [|discriminate]. intros [= <-]. split; [lia|].
  eapply Forall_impl; [exact Hall|]. intros j Hj. simpl in Hj. lia.
Qed.

Lemma add_recipe_rows (name ingredients instructions tags liked_by : str)
    (db db' : database) :
  add_recipe name ingredients instructions tags liked_by db = Ok db' →
  ∃ id, fresh_rowid (seq_recipes db) (r_id <$> recipes db) = Ok id
        ∧ recipes db' = recipes db ++
                        [{| r_id := id; r_name := name;
                            r_ingredients := Some ingredients;
                            r_instructions := Some instructions;
                            r_tags := Some tags;
                            r_liked_by := Some liked_by |}]
        ∧ meals db' = meals db
        ∧ seq_recipes db' = id
        ∧ seq_meals db' = seq_meals db.
Proof.
  unfold add_recipe, insert_recipe. simpl.
  destruct (fresh_rowid _ _) as [id|e]; simpl; [|discriminate].
  intros [= <-]. exists id. auto.
Qed.

Lemma log_meal_rows (r : Z) (ate_on notes : str) (db db' : database) :
  log_meal r ate_on notes db = Ok db' →
  ∃ id, fresh_rowid (seq_meals db) (m_id <$> meals db) = Ok id
        ∧ meals db' = meals db ++ [{| m_id := id; m_recipe_id := r;
                                      m_ate_on := ate_on; m_notes := Some notes |}]
        ∧ recipes db' = recipes db
        ∧ seq_recipes db' = seq_recipes db
        ∧ seq_meals db' = id.
Proof.
  unfold log_meal, insert_meal. simpl.
  destruct (fresh_rowid _ _) as [id|e]; simpl; [|discriminate].
  intros [= <-]. exists id. auto.
Qed.

Lemma update_recipe_ids (r : Z) (name ingredients instructions tags liked_by : str)
    (db : database) :
  r_id <$> recipes (update_recipe r name ingredients instructions tags liked_by db)
  = r_id <$> recipes db.
Proof.
  unfold update_recipe, update_recipe_row. simpl.
  rewrite <- list_fmap_compose. apply list_fmap_ext.
  intros _ row _. simpl. destruct (decide _); reflexivity.
Qed.

Lemma ids_snoc_ok (ids : list Z) (seq id : Z) :
  NoDup ids → Forall (λ i, i ≤ seq) ids → seq < id → Forall (λ i, i < id) ids →
  NoDup (ids ++ [id]) ∧ Forall (λ i, i ≤ id) (ids ++ [id]).
Proof.
  intros Hnodup Hle Hseq Hlt. split.
  - apply NoDup_app. split; [exact Hnodup|]. split; [|apply NoDup_singleton].
    intros i Hi Hin. apply list_elem_of_singleton in Hin. subst i.
    rewrite Forall_forall in Hlt. specialize (Hlt id Hi). lia.
  - apply Forall_app. split; [|repeat constructor; lia].
    eapply Forall_impl; [exact Hlt|]. intros j Hj. simpl in Hj. lia.
Qed.

Lemma ids_filter_ok {A : Type} (f : A → Z) (P : A → Prop) `{∀ x, Decision (P x)}
    (rows : list A) (seq : Z) :
  NoDup (f <$> rows) → Forall (λ i, i ≤ seq) (f <$> rows) →
  NoDup (f <$> filter P rows) ∧ Forall (λ i, i ≤ seq) (f <$> filter P rows).
Proof.
  intros Hnodup Hle.
  split.
  - apply (sublist_NoDup (f <$> filter P rows) (f <$> rows)); [exact Hnodup|].
    apply fmap_sublist, sublist_filter.
  - apply Forall_forall. intros i Hi.
    apply list_elem_of_fmap in Hi as (row & -> & Hrow).
    apply list_elem_of_filter in Hrow as [_ Hrow].
    rewrite Forall_forall in Hle. apply Hle.
    apply list_elem_of_fmap. exists row. auto.
Qed.

Lemma binary_cmp_antisym (a b : str) :
  binary_cmp a b ≠ Gt → binary_cmp b a ≠ Gt → a = b.
Proof.
  intros Hab Hba. apply binary_cmp_eq. rewrite binary_cmp_flip in Hba.
  destruct (binary_cmp a b); [reflexivity|exfalso; apply Hba; reflexivity|contradiction].
Qed.

(** The first row of [ORDER BY ate_on DESC], in terms of the comparison. *)
Lemma last_date_greatest (dates : list str) (m : str) :
  m ∈ dates → (∀ d, d ∈ dates → binary_cmp d m ≠ Gt) →
  head (take 1 (order_by (desc binary_cmp) dates)) = Some m.
Proof.
  intros Hm Hmax.
  destruct (last_date_is_max dates) as (m' & Hhead & Hm' & Hmax').
  { intros ->. exact (not_elem_of_nil _ Hm). }
  rewrite Hhead. f_equal. apply binary_cmp_antisym.
  - apply Hmax, Hm'.
  - apply binary_cmp_not_gt, Hmax', Hm.
Qed.

(** X7: the rowids of both tables stay pairwise different and at most the
    [sqlite_sequence] entry: this holds of the empty database, and
    [add_recipe], [update_recipe], [delete_recipe] and [log_meal] keep it. *)
Theorem ids_ok_invariant :
  ids_ok empty_db
  ∧ ∀ db : database, ids_ok db →
      (∀ name ingredients instructions tags liked_by db',
          add_recipe name ingredients instructions tags liked_by db = Ok db' →
          ids_ok db')
      ∧ (∀ r name ingredients instructions tags liked_by,
          ids_ok (update_recipe r name ingredients instructions tags liked_by db))
      ∧ (∀ r, ids_ok (delete_recipe r db))
      ∧ (∀ r ate_on notes db', log_meal r ate_on notes db = Ok db' → ids_ok db').
Proof.
  split; [repeat split; constructor|].
  intros db (Hr & Hrseq & Hm & Hmseq). repeat split.
  - apply add_recipe_rows in H as (id & Hid & -> & _).
    rewrite fmap_app. apply fresh_rowid_above in Hid as [Hseq Hlt].
    exact (proj1 (ids_snoc_ok _ _ _ Hr Hrseq Hseq Hlt)).
  - apply add_recipe_rows in H as (id & Hid & -> & _ & -> & _).
    rewrite fmap_app. apply fresh_rowid_above in Hid as [Hseq Hlt].
    exact (proj2 (ids_snoc_ok _ _ _ Hr Hrseq Hseq Hlt)).
  - apply add_recipe_rows in H as (id & _ & _ & -> & _). exact Hm.
  - apply add_recipe_rows in H as (id & _ & _ & -> & _ & ->). exact Hmseq.
  - rewrite update_recipe_ids. exact Hr.
  - rewrite update_recipe_ids. exact Hrseq.
  - exact Hm.
  - exact Hmseq.
  - exact (proj1 (ids_filter_ok r_id _ _ _ Hr Hrseq)).
  - exact (proj2 (ids_filter_ok r_id _ _ _ Hr Hrseq)).
  - exact Hm.
  - exact Hmseq.
  - apply log_meal_rows in H as (id & _ & _ & -> & _). exact Hr.
  - apply log_meal_rows in H as (id & _ & _ & -> & -> & _). exact Hrseq.
  - apply log_meal_rows in H as (id & Hid & -> & _).
    rewrite fmap_app. apply fresh_rowid_above in Hid as [Hseq Hlt].
    exact (proj1 (ids_snoc_ok _ _ _ Hm Hmseq Hseq Hlt)).
  - apply log_meal_rows in H as (id & Hid & -> & _ & _ & ->).
    rewrite fmap_app. apply fresh_rowid_above in Hid as [Hseq Hlt].
    exact (proj2 (ids_snoc_ok _ _ _ Hm Hmseq Hseq Hlt)).
Qed.

Lemma sample_db_ids_ok : ids_ok sample_db.
Proof.
  unfold ids_ok, sample_db. simpl. repeat split.
  - apply NoDup_cons. split; [|apply NoDup_singleton].
    intros Hin. apply list_elem_of_singleton in Hin. discriminate.
  - repeat (apply Forall_cons; split; [lia|]). apply Forall_nil. exact I.
  - apply NoDup_cons. split.
    + intros Hin. repeat (apply elem_of_cons in Hin as [Hin|Hin]; [discriminate|]).
      exact (not_elem_of_nil _ Hin).
    + apply NoDup_cons. split; [|apply NoDup_singleton].
      intros Hin. apply list_elem_of_singleton in Hin. discriminate.
  - repeat (apply Forall_cons; split; [lia|]). apply Forall_nil. exact I.
Qed.

Lemma ids_ok_invariant_witness :
  ids_ok
    {| recipes := recipes sample_db ++
                  [{| r_id := 3; r_name := py "sla"; r_ingredients := Some [];
                      r_instructions := Some []; r_tags := Some [];
                      r_liked_by := Some (py "Ana") |}];
       meals := meals sample_db; seq_recipes := 3; seq_meals := 3 |}.
Proof.
  apply (proj1 (proj2 ids_ok_invariant sample_db sample_db_ids_ok)
           (py "sla") [] [] [] (py "Ana")).
  reflexivity.
Defined.

(** X8: a rowid of [recipes] is not handed out twice: when a recipe is
    deleted and another one added, the new table does not hold the deleted
    id, so the meals the deletion left behind belong to no recipe. *)
Theorem deleted_recipe_id_not_reused :
  ∀ (r : Z) (name ingredients instructions tags liked_by : str)
    (db db' : database),
    ids_ok db →
    r ∈ (r_id <$> recipes db) →
    add_recipe name ingredients instructions tags liked_by (delete_recipe r db)
      = Ok db' →
    (r ∉ (r_id <$> recipes db')) ∧ meals_of r db' = meals_of r db.
Proof.
  intros r name ingredients instructions tags liked_by db db'
         (_ & Hseq & _) Hr Hadd.
  apply add_recipe_rows in Hadd as (id & Hid & Hrows & Hmeals & _).
  apply fresh_rowid_above in Hid as [Hlt _]. simpl in Hlt.
  rewrite Forall_forall in Hseq. specialize (Hseq r Hr).
  split; [|unfold meals_of; rewrite Hmeals; reflexivity].
  rewrite Hrows, fmap_app. intros Hin. apply elem_of_app in Hin as [Hin|Hin].
  - apply list_elem_of_fmap in Hin as (row & Hrow & Hin). simpl in Hin.
    apply list_elem_of_filter in Hin as [Hne _]. congruence.
  - apply list_elem_of_singleton in Hin. simpl in Hin. lia.
Qed.

Lemma deleted_recipe_id_not_reused_witness :
  (1 ∉ (r_id <$> recipes
          {| recipes := [{| r_id := 2; r_name := py "sla"; r_ingredients := Some [];
                            r_instructions := Some []; r_tags := Some [];
                            r_liked_by := Some [] |}];
             meals := []; seq_recipes := 2; seq_meals := 0 |}))
  ∧ meals_of 1 {| recipes := [{| r_id := 2; r_name := py "sla";
                                 r_ingredients := Some [];
                                 r_instructions := Some []; r_tags := Some [];
                                 r_liked_by := Some [] |}];
                  meals := []; seq_recipes := 2; seq_meals := 0 |}
    = meals_of 1 {| recipes := [{| r_id := 1; r_name := py "soep";
                                   r_ingredients := None; r_instructions := None;
                                   r_tags := None; r_liked_by := None |}];
                    meals := []; seq_recipes := 1; seq_meals := 0 |}.
Proof.
  apply (deleted_recipe_id_not_reused 1 (py "sla") [] [] [] []
           {| recipes := [{| r_id := 1; r_name := py "soep";
                             r_ingredients := None; r_instructions := None;
                             r_tags := None; r_liked_by := None |}];
              meals := []; seq_recipes := 1; seq_meals := 0 |}).
  - repeat split; simpl.
    + apply NoDup_singleton.
    + apply Forall_cons. split; [lia|]. apply Forall_nil. exact I.
    + apply NoDup_nil. exact I.
    + apply Forall_nil. exact I.
  - simpl. apply list_elem_of_singleton. reflexivity.
  - reflexivity.
Defined.

Lemma list_fmap_id_on {A : Type} (f : A → A) (rows : list A) :
  (∀ row, row ∈ rows → f row = row) → f <$> rows = rows.
Proof.
  induction rows as [|row rows IH]; intros Hf; [reflexivity|].
  rewrite fmap_cons, Hf by (left). f_equal. apply IH.
  intros row' Hrow'. apply Hf. right. exact Hrow'.
Qed.

(** X9: [update_recipe] for an id the table does not hold changes nothing
    and raises nothing; for any id it leaves the ids, their order and the
    meals as they are, and a row of the result either has that id and the
    new values, or another id and is a row of the old table. *)
Theorem update_recipe_effect :
  ∀ (r : Z) (name ingredients instructions tags liked_by : str) (db : database),
    (r ∉ (r_id <$> recipes db) →
     update_recipe r name ingredients instructions tags liked_by db = db)
    ∧ r_id <$> recipes (update_recipe r name ingredients instructions tags liked_by db)
      = r_id <$> recipes db
    ∧ meals (update_recipe r name ingredients instructions tags liked_by db)
      = meals db
    ∧ ∀ row,
        row ∈ recipes (update_recipe r name ingredients instructions tags liked_by db) →
        row = {| r_id := r; r_name := name; r_ingredients := Some ingredients;
                 r_instructions := Some instructions; r_tags := Some tags;
                 r_liked_by := Some liked_by |}
        ∨ (r_id row ≠ r ∧ row ∈ recipes db).
Proof.
  intros r name ingredients instructions tags liked_by db.
  split; [|split; [apply update_recipe_ids|split; [reflexivity|]]].
  - intros Hnot. destruct db as [rs ms sr sm].
    unfold update_recipe, update_recipe_row. simpl in *. f_equal.
    apply list_fmap_id_on. intros row Hrow.
    destruct (decide (r_id row = r)) as [Heq|_]; [|reflexivity].
    exfalso. apply Hnot. apply list_elem_of_fmap. exists row. auto.
  - intros row Hrow. unfold update_recipe, update_recipe_row in Hrow. simpl in Hrow.
    apply list_elem_of_fmap in Hrow as (old & -> & Hold).
    destruct (decide (r_id old = r)) as [Heq|Hne].
    + left. rewrite Heq. reflexivity.
    + right. auto.
Qed.

Lemma update_recipe_effect_witness :
  update_recipe 9 (py "x") [] [] [] [] sample_db = sample_db.
Proof.
  apply (proj1 (update_recipe_effect 9 (py "x") [] [] [] [] sample_db)).
  simpl. intros Hin.
  repeat (apply elem_of_cons in Hin as [Hin|Hin]; [discriminate|]).
  exact (not_elem_of_nil _ Hin).
Defined.

Lemma list_filter_id_on {A : Type} (P : A → Prop) `{∀ x, Decision (P x)}
    (rows : list A) :
  (∀ row, row ∈ rows → P row) → filter P rows = rows.
Proof.
  induction rows as [|row rows IH]; intros HP; [reflexivity|].
  rewrite filter_cons_True by (apply HP; left). f_equal. apply IH.
  intros row' Hrow'. apply HP. right. exact Hrow'.
Qed.

(** X10: [delete_recipe] for an id the table does not hold changes nothing;
    for any id the result holds exactly the rows of other ids, in their old
    order, and no later [get_recipes] lists the deleted id. *)
Theorem delete_recipe_effect :
  ∀ (r : Z) (db : database),
    (r ∉ (r_id <$> recipes db) → delete_recipe r db = db)
    ∧ (∀ row, row ∈ recipes (delete_recipe r db) ↔ row ∈ recipes db ∧ r_id row ≠ r)
    ∧ recipes (delete_recipe r db) `sublist_of` recipes db
    ∧ ∀ query liked_filter row,
        row ∈ get_recipes query liked_filter (delete_recipe r db) → r_id row ≠ r.
Proof.
  intros r db. split; [|split; [|split]].
  - intros Hnot. destruct db as [rs ms sr sm].
    unfold delete_recipe, delete_recipe_row. simpl in *. f_equal.
    apply list_filter_id_on. intros row Hrow Heq.
    apply Hnot. apply list_elem_of_fmap. exists row. auto.
  - intros row. unfold delete_recipe, delete_recipe_row. simpl.
    rewrite list_elem_of_filter. tauto.
  - apply sublist_filter.
  - intros query liked_filter row Hrow.
    apply (proj1 (proj2 (get_recipes_selects_and_sorts_aux query liked_filter _))) in Hrow
      as [Hrow _].
    unfold delete_recipe, delete_recipe_row in Hrow. simpl in Hrow.
    apply list_elem_of_filter in Hrow as [Hne _]. exact Hne.
Qed.

Lemma delete_recipe_effect_witness : delete_recipe 3 sample_db = sample_db.
Proof.
  apply (proj1 (delete_recipe_effect 3 sample_db)).
  simpl. intros Hin.
  repeat (apply elem_of_cons in Hin as [Hin|Hin]; [discriminate|]).
  exact (not_elem_of_nil _ Hin).
Defined.

Lemma log_meal_dates (r : Z) (ate_on notes : str) (db db' : database) :
  log_meal r ate_on notes db = Ok db' →
  dates_of r db' = dates_of r db ++ [ate_on]
  ∧ ∀ r', r' ≠ r → dates_of r' db' = dates_of r' db.
Proof.
  intros Hlog. apply log_meal_rows in Hlog as (id & _ & Hmeals & _).
  unfold dates_of, meals_of. rewrite Hmeals. split.
  - rewrite filter_app, fmap_app, filter_cons_True by reflexivity. reflexivity.
  - intros r' Hne. rewrite filter_app, filter_cons_False by (simpl; congruence).
    rewrite filter_nil, app_nil_r. reflexivity.
Qed.

(** X11: a successful [log_meal] for a recipe raises its count by one; its
    last date becomes the new date when there was no meal or the new date
    is the greater one, and stays otherwise; the statistics of every other
    recipe stay as they are. *)
Theorem log_meal_updates_stats :
  ∀ (r : Z) (ate_on notes : str) (db db' : database),
    log_meal r ate_on notes db = Ok db' →
    (get_meal_stats r db').1 = (get_meal_stats r db).1 + 1
    ∧ (get_meal_stats r db').2
      = (if decide (dates_of r db = []) then ate_on
         else match binary_cmp ate_on (get_meal_stats r db).2 with
              | Gt => ate_on
              | _ => (get_meal_stats r db).2
              end)
    ∧ ∀ r', r' ≠ r → get_meal_stats r' db' = get_meal_stats r' db.
Proof.
  intros r ate_on notes db db' Hlog.
  destruct (log_meal_dates _ _ _ _ _ Hlog) as [Hdates Hother].
  split; [|split].
  - rewrite !get_meal_stats_unfold. simpl. rewrite Hdates, length_app. simpl. lia.
  - rewrite !get_meal_stats_unfold. simpl. rewrite Hdates.
    destruct (decide (dates_of r db = [])) as [->|Hne]; [reflexivity|].
    destruct (last_date_is_max _ Hne) as (m & Hhead & Hm & Hmax).
    rewrite Hhead.
    assert (Hle : ∀ d, d ∈ dates_of r db → binary_cmp d m ≠ Gt).
    { intros d Hd. apply binary_cmp_not_gt, Hmax, Hd. }
    destruct (binary_cmp ate_on m) eqn:Hcmp.
    + rewrite (last_date_greatest _ m); [reflexivity|apply elem_of_app; left; exact Hm|].
      intros d Hd. apply elem_of_app in Hd as [Hd|Hd]; [apply Hle, Hd|].
      apply list_elem_of_singleton in Hd. subst d. rewrite Hcmp. discriminate.
    + rewrite (last_date_greatest _ m); [reflexivity|apply elem_of_app; left; exact Hm|].
      intros d Hd. apply elem_of_app in Hd as [Hd|Hd]; [apply Hle, Hd|].
      apply list_elem_of_singleton in Hd. subst d. rewrite Hcmp. discriminate.
    + rewrite (last_date_greatest _ ate_on);
        [reflexivity|apply elem_of_app; right; apply list_elem_of_singleton; reflexivity|].
      intros d Hd. apply elem_of_app in Hd as [Hd|Hd].
      * apply (binary_cmp_trans d m ate_on); [apply Hle, Hd|].
        apply binary_cmp_total, Hcmp.
      * apply list_elem_of_singleton in Hd. subst d.
        rewrite (proj2 (binary_cmp_eq ate_on ate_on) eq_refl). discriminate.
  - intros r' Hne. rewrite !get_meal_stats_unfold, (Hother r' Hne). reflexivity.
Qed.

Lemma log_meal_updates_stats_witness :
  (get_meal_stats 1 {| recipes := [];
                       meals := [{| m_id := 1; m_recipe_id := 1;
                                    m_ate_on := py "2024-05-01";
                                    m_notes := Some [] |}];
                       seq_recipes := 0; seq_meals := 1 |}).1
  = (get_meal_stats 1 empty_db).1 + 1.
Proof.
  apply (log_meal_updates_stats 1 (py "2024-05-01") [] empty_db). reflexivity.
Defined.

(** ** Dates: [isoformat] and the last date *)

Local Open Scope Z_scope.

Lemma zero_padded_length (w : nat) (n : Z) : length (zero_padded w n) = w.
Proof.
  revert n. induction w as [|w IH]; intros n; [reflexivity|].
  simpl. rewrite length_app, IH. simpl. lia.
Qed.

(** Two strings that start with parts of the same length compare by these
    parts first. *)
Lemma binary_cmp_app (a a' b b' : str) :
  length a = length a' →
  binary_cmp (a ++ b) (a' ++ b')
  = match binary_cmp a a' with
    | Eq => binary_cmp b b'
    | c => c
    end.
Proof.
  revert a'. induction a as [|x a IH]; intros [|y a'] Hlen; try discriminate.
  - reflexivity.
  - simpl. destruct (N.compare x y); [|reflexivity|reflexivity].
    apply IH. simpl in Hlen. lia.
Qed.

Lemma digit_cmp (x y : Z) :
  0 ≤ x → 0 ≤ y →
  binary_cmp [Z.to_N (48 + x)] [Z.to_N (48 + y)] = (x ?= y).
Proof.
  intros Hx Hy. simpl.
  rewrite Z2N.inj_compare by lia. rewrite Z.add_compare_mono_l.
  destruct (x ?= y); reflexivity.
Qed.

Lemma compare_by_digits (x y : Z) :
  match x / 10 ?= y / 10 with
  | Eq => x mod 10 ?= y mod 10
  | c => c
  end = (x ?= y).
Proof.
  pose proof (Z.div_mod x 10 ltac:(lia)) as Hx.
  pose proof (Z.div_mod y 10 ltac:(lia)) as Hy.
  pose proof (Z.mod_pos_bound x 10 ltac:(lia)) as Hxm.
  pose proof (Z.mod_pos_bound y 10 ltac:(lia)) as Hym.
  destruct (Z.compare_spec (x / 10) (y / 10)) as [Hq|Hq|Hq].
  - destruct (Z.compare_spec (x mod 10) (y mod 10)) as [Hr|Hr|Hr];
      symmetry; [apply Z.compare_eq_iff|apply Z.compare_lt_iff|apply Z.compare_gt_iff];
      lia.
  - symmetry. apply Z.compare_lt_iff. lia.
  - symmetry. apply Z.compare_gt_iff. lia.
Qed.

(** Numbers written with the same number of digits compare as their
    digit strings do. *)
Lemma zero_padded_cmp (w : nat) (x y : Z) :
  0 ≤ x → 0 ≤ y →
  binary_cmp (zero_padded w x) (zero_padded w y)
  = match w with
    | O => Eq
    | S _ => x mod 10 ^ Z.of_nat w ?= y mod 10 ^ Z.of_nat w
    end.
Proof.
  revert x y. induction w as [|w IH]; intros x y Hx Hy; [reflexivity|].
  simpl zero_padded. rewrite binary_cmp_app by (rewrite !zero_padded_length; reflexivity).
  rewrite IH by (apply Z.div_pos; lia).
  rewrite digit_cmp by (apply Z.mod_pos_bound; lia).
  destruct w as [|w'].
  - change (10 ^ Z.of_nat 1) with 10. reflexivity.
  - set (p := 10 ^ Z.of_nat (S w')).
    assert (Hp : 0 < p) by (apply Z.pow_pos_nonneg; lia).
    replace (10 ^ Z.of_nat (S (S w'))) with (10 * p)
      by (unfold p; rewrite (Nat2Z.inj_succ (S w')), Z.pow_succ_r by lia; reflexivity).
    rewrite <- (compare_by_digits (x mod (10 * p)) (y mod (10 * p))).
    assert (Hdiv : ∀ n, 0 ≤ n → (n mod (10 * p)) / 10 = (n / 10) mod p).
    { intros n Hn. rewrite Z.rem_mul_r by lia.
      rewrite (Z.add_comm (n mod 10)), Z.mul_comm, Z.div_add_l by lia.
      rewrite (Z.div_small (n mod 10) 10) by (apply Z.mod_pos_bound; lia). lia. }
    assert (Hmod : ∀ n, 0 ≤ n → (n mod (10 * p)) mod 10 = n mod 10).
    { intros n Hn. rewrite Z.rem_mul_r by lia.
      rewrite (Z.mul_comm 10 ((n / 10) mod p)), Z.mod_add by lia.
      apply Z.mod_mod. lia. }
    rewrite !Hdiv, !Hmod by assumption. reflexivity.
Qed.

Lemma zero_padded_cmp_fits (w : nat) (x y : Z) :
  0 ≤ x < 10 ^ Z.of_nat (S w) → 0 ≤ y < 10 ^ Z.of_nat (S w) →
  binary_cmp (zero_padded (S w) x) (zero_padded (S w) y) = (x ?= y).
Proof.
  intros Hx Hy. rewrite zero_padded_cmp by lia.
  rewrite !Z.mod_small by assumption. reflexivity.
Qed.

Lemma isoformat_cmp (d1 d2 : date) :
  date_ok d1 → date_ok d2 →
  binary_cmp (isoformat d1) (isoformat d2) = date_cmp d1 d2.
Proof.
  intros (Hy1 & Hm1 & Hd1) (Hy2 & Hm2 & Hd2). unfold isoformat, date_cmp.
  rewrite binary_cmp_app by (rewrite !zero_padded_length; reflexivity).
  rewrite (zero_padded_cmp_fits 3) by (change (10 ^ Z.of_nat 4) with 10000; lia).
  destruct (year d1 ?= year d2); [|reflexivity|reflexivity].
  change ([hyphen] ++ ?a) with (hyphen :: a).
  change (binary_cmp (hyphen :: ?a) (hyphen :: ?b)) with (binary_cmp a b).
  rewrite binary_cmp_app by (rewrite !zero_padded_length; reflexivity).
  rewrite (zero_padded_cmp_fits 1) by (change (10 ^ Z.of_nat 2) with 100; lia).
  destruct (month d1 ?= month d2); [|reflexivity|reflexivity].
  change (binary_cmp (hyphen :: ?a) (hyphen :: ?b)) with (binary_cmp a b).
  apply (zero_padded_cmp_fits 1); change (10 ^ Z.of_nat 2) with 100; lia.
Qed.

(** X12: [isoformat] gives ten characters, and for dates within the field
    ranges the strings compare, code point by code point, exactly as the
    dates do in time. *)
Theorem isoformat_order_is_chronological :
  ∀ d1 d2 : date,
    date_ok d1 → date_ok d2 →
    length (isoformat d1) = 10%nat
    ∧ binary_cmp (isoformat d1) (isoformat d2) = date_cmp d1 d2.
Proof.
  intros d1 d2 H1 H2. split; [|apply isoformat_cmp; assumption].
  unfold isoformat. rewrite !length_app, !zero_padded_length. reflexivity.
Qed.

Lemma isoformat_order_is_chronological_witness :
  length (isoformat {| year := 2024; month := 3; day := 5 |}) = 10%nat
  ∧ binary_cmp (isoformat {| year := 2024; month := 3; day := 5 |})
               (isoformat {| year := 2023; month := 12; day := 31 |})
    = date_cmp {| year := 2024; month := 3; day := 5 |}
               {| year := 2023; month := 12; day := 31 |}.
Proof.
  apply isoformat_order_is_chronological; unfold date_ok; simpl; lia.
Defined.

(** X13: when the meals of a recipe carry the [isoformat] of dates, as the
    "Log eetmoment" button writes them, the last date of [get_meal_stats] is
    the [isoformat] of the latest of these dates. *)
Theorem get_meal_stats_last_is_latest :
  ∀ (r : Z) (db : database) (ds : list date),
    ds ≠ [] → Forall date_ok ds →
    dates_of r db = isoformat <$> ds →
    ∃ d, d ∈ ds
         ∧ (get_meal_stats r db).2 = isoformat d
         ∧ ∀ d', d' ∈ ds → date_cmp d' d ≠ Gt.
Proof.
  intros r db ds Hne Hok Hdates.
  destruct (last_date_is_max (dates_of r db)) as (m & Hhead & Hm & Hmax).
  { rewrite Hdates. destruct ds; [contradiction|discriminate]. }
  rewrite Hdates in Hm. apply list_elem_of_fmap in Hm as (d & -> & Hd).
  rewrite Forall_forall in Hok.
  exists d. split; [exact Hd|]. split.
  - rewrite get_meal_stats_unfold. simpl. rewrite Hhead. reflexivity.
  - intros d' Hd'. rewrite <- isoformat_cmp by auto.
    apply binary_cmp_not_gt, Hmax. rewrite Hdates.
    apply list_elem_of_fmap. exists d'. auto.
Qed.

(** X14: a click on "Log eetmoment" that succeeds adds one meal for the
    recipe, dated with the [isoformat] of the chosen date and with the note
    trimmed, and touches no recipe. *)
Theorem log_eetmoment_appends_meal :
  ∀ (rid : Z) (ate_on : date) (note : str) (db db' : database) (n : notice),
    log_eetmoment rid ate_on note db = Ok (db', n) →
    recipes db' = recipes db
    ∧ n = Success "Eetmoment toegevoegd."
    ∧ ∃ id, meals db' = meals db ++
                         [{| m_id := id; m_recipe_id := rid;
                             m_ate_on := isoformat ate_on;
                             m_notes := Some (strip note) |}]
            ∧ Forall (λ m, m_id m < id) (meals db).
Proof.
  intros rid ate_on note db db' n. unfold log_eetmoment.
  destruct (log_meal rid (isoformat ate_on) (strip note) db) as [db1|e] eqn:Hlog;
    simpl; [|discriminate].
  intros [= <- <-].
  apply log_meal_rows in Hlog as (id & Hid & Hmeals & Hrecipes & _).
  split; [exact Hrecipes|]. split; [reflexivity|].
  exists id. split; [exact Hmeals|].
  apply fresh_rowid_above in Hid as [_ Hlt].
  apply Forall_fmap in Hlt. exact Hlt.
Qed.

Lemma get_meal_stats_last_is_latest_witness :
  ∃ d, d ∈ [{| year := 2024; month := 3; day := 5 |};
            {| year := 2024; month := 1; day := 1 |}]
       ∧ (get_meal_stats 1 sample_db).2 = isoformat d
       ∧ ∀ d', d' ∈ [{| year := 2024; month := 3; day := 5 |};
                     {| year := 2024; month := 1; day := 1 |}] →
               date_cmp d' d ≠ Gt.
Proof.
  apply (get_meal_stats_last_is_latest 1 sample_db
           [{| year := 2024; month := 3; day := 5 |};
            {| year := 2024; month := 1; day := 1 |}]).
  - discriminate.
  - repeat (apply Forall_cons; split; [unfold date_ok; simpl; lia|]).
    apply Forall_nil. exact I.
  - reflexivity.
Defined.

Lemma log_eetmoment_appends_meal_witness :
  recipes {| recipes := [];
             meals := [{| m_id := 1; m_recipe_id := 4;
                          m_ate_on := py "2024-03-05";
                          m_notes := Some (py "lekker") |}];
             seq_recipes := 0; seq_meals := 1 |} = recipes empty_db.
Proof.
  apply (log_eetmoment_appends_meal 4 {| year := 2024; month := 3; day := 5 |}
           (py " lekker ") empty_db _ (Success "Eetmoment toegevoegd.")).
  reflexivity.
Defined.

(** ** The names of all likers *)

Local Open Scope N_scope.

Lemma ltrim_spaces_all (s : str) :
  Forall (λ c, c = space) (ltrim_spaces s) → ltrim_spaces s = [].
Proof.
  induction s as [|c s IH]; [reflexivity|].
  simpl. destruct (N.eqb_spec c space) as [->|Hne]; [exact IH|].
  intros Hall. apply Forall_cons in Hall as [Hc _]. contradiction.
Qed.

Lemma ltrim_spaces_nil (s : str) :
  ltrim_spaces s = [] → Forall (λ c, c = space) s.
Proof.
  induction s as [|c s IH]; [constructor|].
  simpl. destruct (N.eqb_spec c space) as [->|Hne]; [|discriminate].
  intros Hs. constructor; [reflexivity|apply IH, Hs].
Qed.

(** [TRIM] leaves nothing only of a text of spaces. *)
Lemma sql_trim_nil (s : str) : sql_trim s = [] → Forall (λ c, c = space) s.
Proof.
  unfold sql_trim. intros Hnil.
  apply (f_equal (@rev N)) in Hnil. rewrite rev_involutive in Hnil. simpl in Hnil.
  apply ltrim_spaces_nil in Hnil. apply Forall_rev in Hnil.
  rewrite rev_involutive in Hnil.
  apply ltrim_spaces_nil, ltrim_spaces_all, Hnil.
Qed.

Lemma liked_by_rows_elem (db : database) (csv_text : str) :
  csv_text ∈ liked_by_rows db
  ↔ ∃ r, r ∈ recipes db ∧ r_liked_by r = Some csv_text ∧ sql_trim csv_text ≠ [].
Proof.
  unfold liked_by_rows. rewrite list_elem_of_omap. split.
  - intros (r & Hr & Hsome). exists r. split; [exact Hr|].
    destruct (r_liked_by r) as [t|]; [|discriminate].
    destruct (decide (sql_trim t ≠ [])) as [Hne|]; [|discriminate].
    injection Hsome as ->. auto.
  - intros (r & Hr & Hliked & Hne). exists r. split; [exact Hr|].
    rewrite Hliked. destruct (decide _); [reflexivity|contradiction].
Qed.

Lemma add_names_elem (f : str → str) (items : list str) (names : gset (list N))
    (n : str) :
  n ∈ foldl (λ names x, names ∪ {[f x]}) names items
  ↔ n ∈ names ∨ ∃ x, x ∈ items ∧ n = f x.
Proof.
  revert names. induction items as [|x items IH]; intros names; simpl.
  - split; [auto|]. intros [Hn|(x & Hx & _)]; [exact Hn|].
    destruct (not_elem_of_nil _ Hx).
  - rewrite IH, elem_of_union, elem_of_singleton. split.
    + intros [[Hn| ->]|(y & Hy & ->)]; [auto| |].
      * right. exists x. split; [left|reflexivity].
      * right. exists y. split; [right; exact Hy|reflexivity].
    + intros [Hn|(y & Hy & ->)]; [auto|].
      apply elem_of_cons in Hy as [->|Hy]; [auto|].
      right. exists y. auto.
Qed.

Lemma collect_names_elem (rows : list str) (names : gset (list N)) (n : str) :
  n ∈ foldl (λ names csv_text,
               foldl (λ names x, names ∪ {[strip x]}) names
                     (_split_csv (Some csv_text))) names rows
  ↔ n ∈ names
    ∨ ∃ csv_text x, csv_text ∈ rows ∧ x ∈ _split_csv (Some csv_text) ∧ n = strip x.
Proof.
  revert names. induction rows as [|csv_text rows IH]; intros names; simpl.
  - split; [auto|]. intros [Hn|(c & x & Hc & _)]; [exact Hn|].
    destruct (not_elem_of_nil _ Hc).
  - rewrite IH, add_names_elem. split.
    + intros [[Hn|(x & Hx & ->)]|(c & x & Hc & Hx & ->)]; [auto| |].
      * right. exists csv_text, x. split; [left|auto].
      * right. exists c, x. split; [right; exact Hc|auto].
    + intros [Hn|(c & x & Hc & Hx & ->)]; [auto|].
      apply elem_of_cons in Hc as [->|Hc].
      * left. right. exists x. auto.
      * right. exists c, x. auto.
Qed.

Section LikersFacts.
Context `{Lowercase}.
Variable set_order : gset (list N) → list str.
Hypothesis set_order_perm : ∀ s, set_order s ≡ₚ elements s.

Lemma get_all_likers_perm (db : database) :
  ∃ names : gset (list N),
    get_all_likers set_order db ≡ₚ elements names
    ∧ ∀ n, n ∈ names
           ↔ ∃ r t, r ∈ recipes db ∧ r_liked_by r = Some t
                    ∧ n ∈ _split_csv (Some t).
Proof.
  unfold get_all_likers, sorted_by_key. eexists. split.
  - rewrite order_by_perm. apply set_order_perm.
  - intros n. rewrite collect_names_elem. split.
    + intros [Hn|(csv_text & x & Hrow & Hx & ->)];
        [destruct (not_elem_of_empty _ Hn)|].
      apply liked_by_rows_elem in Hrow as (r & Hr & Hliked & _).
      exists r, csv_text. repeat split; [exact Hr|exact Hliked|].
      pose proof (split_csv_clean (Some csv_text)) as Hclean.
      rewrite Forall_forall in Hclean. destruct (Hclean x Hx) as (-> & _).
      exact Hx.
    + intros (r & t & Hr & Hliked & Hn). right.
      exists t, n. split; [|split; [exact Hn|]].
      * apply liked_by_rows_elem. exists r. repeat split; [exact Hr|exact Hliked|].
        intros Hnil. apply sql_trim_nil in Hnil.
        rewrite split_csv_blank in Hn; [destruct (not_elem_of_nil _ Hn)|].
        eapply Forall_impl; [exact Hnil|]. intros c ->. right. reflexivity.
      * pose proof (split_csv_clean (Some t)) as Hclean.
        rewrite Forall_forall in Hclean. destruct (Hclean n Hn) as (-> & _).
        reflexivity.
Qed.

Lemma get_all_likers_facts (db : database) :
  (∀ n, n ∈ get_all_likers set_order db
        ↔ ∃ r t, r ∈ recipes db ∧ r_liked_by r = Some t
                 ∧ n ∈ _split_csv (Some t))
  ∧ NoDup (get_all_likers set_order db)
  ∧ StronglySorted (λ a b, lower a = lower b ∨ lexico (lower a) (lower b))
                   (get_all_likers set_order db)
  ∧ Forall clean_name (get_all_likers set_order db).
Proof.
  destruct (get_all_likers_perm db) as (names & Hperm & Hnames).
  assert (Helem : ∀ n, n ∈ get_all_likers set_order db
                       ↔ ∃ r t, r ∈ recipes db ∧ r_liked_by r = Some t
                                ∧ n ∈ _split_csv (Some t)).
  { intros n. rewrite Hperm, elem_of_elements. apply Hnames. }
  split; [exact Helem|]. split; [|split].
  - rewrite Hperm. apply NoDup_elements.
  - unfold get_all_likers, sorted_by_key.
    eapply StronglySorted_weaken;
      [|apply (order_by_sorted (λ a b, binary_cmp (lower a) (lower b)))].
    + intros a b Hab. apply binary_cmp_not_gt. exact Hab.
    + intros a b Hgt. apply binary_cmp_total. exact Hgt.
    + intros a b c. apply binary_cmp_trans.
  - apply Forall_forall. intros n Hn.
    apply Helem in Hn as (r & t & _ & _ & Hn).
    pose proof (split_csv_clean (Some t)) as Hclean.
    rewrite Forall_forall in Hclean. exact (Hclean n Hn).
Qed.

End LikersFacts.

(** X15: whatever the order in which the set is walked, [get_all_likers]
    returns exactly the names that [_split_csv] finds in the [liked_by] of
    some recipe, compared as they are written (two names that differ in
    case only are two names), each once, sorted by their lower-cased form;
    every name is trimmed, not empty and without comma. *)
Theorem get_all_likers_names :
  ∀ (L : Lowercase) (set_order : gset (list N) → list str) (db : database),
    (∀ s, set_order s ≡ₚ elements s) →
    (∀ n, n ∈ get_all_likers set_order db
          ↔ ∃ r t, r ∈ recipes db ∧ r_liked_by r = Some t
                   ∧ n ∈ _split_csv (Some t))
    ∧ NoDup (get_all_likers set_order db)
    ∧ StronglySorted (λ a b, lower a = lower b ∨ lexico (lower a) (lower b))
                     (get_all_likers set_order db)
    ∧ Forall clean_name (get_all_likers set_order db).
Proof.
  intros L set_order db Hperm. apply get_all_likers_facts, Hperm.
Qed.

Lemma get_all_likers_names_witness :
  NoDup (get_all_likers elements
           {| recipes := [{| r_id := 1%Z; r_name := py "soep";
                             r_ingredients := None; r_instructions := None;
                             r_tags := None;
                             r_liked_by := Some (py "Ana, ana,Bob") |}];
              meals := []; seq_recipes := 1%Z; seq_meals := 0%Z |}).
Proof.
  apply (get_all_likers_names latin1_lowercase elements).
  intros s. reflexivity.
Defined.

(** ** Badges and the forms *)

Local Open Scope N_scope.

Lemma escape_cp_safe (c d : char) : d ∈ escape_cp c → d ∉ markup_chars.
Proof.
  unfold escape_cp, markup_chars.
  destruct (N.eqb_spec c 38) as [_|H38];
    [|destruct (N.eqb_spec c 60) as [_|H60];
      [|destruct (N.eqb_spec c 62) as [_|H62];
        [|destruct (N.eqb_spec c 34) as [_|H34];
          [|destruct (N.eqb_spec c 39) as [_|H39]]]]];
    intros Hd Hm;
    repeat (apply elem_of_cons in Hd as [->|Hd];
            [repeat (apply elem_of_cons in Hm as [Hm|Hm];
                     [first [discriminate Hm|congruence]|]);
             exact (not_elem_of_nil _ Hm)|]);
    exact (not_elem_of_nil _ Hd).
Qed.

Lemma escape_cp_plain (c : char) :
  c ≠ 38 → c ∉ markup_chars → escape_cp c = [c].
Proof.
  intros Hamp Hm. unfold escape_cp, markup_chars in *.
  rewrite (proj2 (N.eqb_neq c 38) Hamp).
  destruct (N.eqb_spec c 60) as [->|_]; [exfalso; apply Hm; set_solver|].
  destruct (N.eqb_spec c 62) as [->|_]; [exfalso; apply Hm; set_solver|].
  destruct (N.eqb_spec c 34) as [->|_]; [exfalso; apply Hm; set_solver|].
  destruct (N.eqb_spec c 39) as [->|_]; [exfalso; apply Hm; set_solver|].
  reflexivity.
Qed.

(** X16: what [escape] returns holds none of [<], [>], the double and the
    single quote; a text without these and without [&] is returned as it
    is; and [render_badges_csv] returns the empty string exactly when
    [_split_csv] finds no name. *)
Theorem render_badges_csv_escapes :
  (∀ (s : str) (d : char), d ∈ escape s → d ∉ markup_chars)
  ∧ (∀ s : str, Forall (λ c, c ≠ 38 ∧ c ∉ markup_chars) s → escape s = s)
  ∧ (∀ csv_text : option str,
      render_badges_csv csv_text = [] ↔ _split_csv csv_text = []).
Proof.
  split; [|split].
  - intros s d Hd. unfold escape in Hd.
    apply list_elem_of_bind in Hd as (c & Hd & _). exact (escape_cp_safe c d Hd).
  - intros s Hs. unfold escape.
    induction Hs as [|c s [Hamp Hm] _ IH]; [reflexivity|].
    change ((c :: s) ≫= escape_cp) with (escape_cp c ++ (s ≫= escape_cp)).
    rewrite IH, escape_cp_plain by assumption. reflexivity.
  - intros csv_text. unfold render_badges_csv. fold (_split_csv csv_text).
    destruct (decide (_split_csv csv_text = [])) as [Hnil|Hne].
    + split; auto.
    + split; [discriminate|contradiction].
Qed.

Lemma render_badges_csv_escapes_witness : escape (py "Ana en Bob") = py "Ana en Bob".
Proof.
  apply (proj1 (proj2 render_badges_csv_escapes)).
  repeat (apply Forall_cons; split;
          [split; [discriminate|];
           let Hm := fresh "Hm" in
           intros Hm; unfold markup_chars in Hm;
           repeat (apply elem_of_cons in Hm as [Hm|Hm]; [discriminate Hm|]);
           exact (not_elem_of_nil _ Hm)|]).
  apply Forall_nil. exact I.
Defined.

Section Forms.
Context `{Lowercase}.

(** The value both forms store for [liked_by] reads back as the merged
    names, when no selected name holds a comma. *)
Lemma liked_by_value_reads_back (selected_names : list str) (new_likers_csv : str) :
  Forall (λ x, comma ∉ x) selected_names →
  _split_csv
    (Some (join [comma; space]
             (_dedupe_keep_order
                (selected_names ++ _split_csv (Some new_likers_csv)))))
  = _dedupe_keep_order (selected_names ++ _split_csv (Some new_likers_csv)).
Proof.
  intros Hsel. apply split_csv_join_clean, dedupe_clean_no_comma.
  apply Forall_app. split; [exact Hsel|].
  eapply Forall_impl; [apply split_csv_clean|]. intros x (_ & _ & Hx). exact Hx.
Qed.

End Forms.

(** Every assignment of [reset_form] is to the key of a widget of the
    sidebar, so the first one is refused. *)
Lemma reset_form_refused (f : form) : reset_form f = Raise StreamlitAPIException.
Proof. reflexivity. Qed.

(** X17: a click on "Opslaan" with a name that is not blank, when a rowid
    is left, appends one recipe with a new id and the trimmed fields, leaves
    the meals and shows the success message; the run then ends with
    [StreamlitAPIException] at the first assignment to [st.session_state],
    so the form keeps its values; the stored name is not empty, and when no
    selected name holds a comma the stored [liked_by] reads back through
    [_split_csv] as the selected names followed by the typed ones, without
    duplicates. *)
Theorem opslaan_appends_recipe :
  ∀ (L : Lowercase) (f : form) (db : database) (id : Z),
    truthy (strip (new_name f)) →
    fresh_rowid (seq_recipes db) (r_id <$> recipes db) = Ok id →
    ∃ liked,
      opslaan f db
      = {| db_after :=
             {| recipes := recipes db ++
                           [{| r_id := id; r_name := strip (new_name f);
                               r_ingredients := Some (strip (new_ing f));
                               r_instructions := Some (strip (new_instr f));
                               r_tags := Some (strip (new_tags f));
                               r_liked_by := Some liked |}];
                meals := meals db;
                seq_recipes := id;
                seq_meals := seq_meals db |};
           form_after := f;
           shown := [Success "Recept opgeslagen."];
           raised := Some StreamlitAPIException |}
      ∧ Forall (λ r, (r_id r < id)%Z) (recipes db)
      ∧ strip (new_name f) ≠ []
      ∧ (Forall (λ x, comma ∉ x) (new_selected_likers f) →
         _split_csv (Some liked)
         = _dedupe_keep_order
             (new_selected_likers f ++ _split_csv (Some (new_likers_csv f)))).
Proof.
  intros L f db id Hname Hid. eexists. split; [|split; [|split; [exact Hname|]]].
  - unfold opslaan.
    destruct (decide (truthy (strip (new_name f)))) as [_|Hno]; [|contradiction].
    unfold add_recipe, insert_recipe. simpl. rewrite Hid. reflexivity.
  - apply fresh_rowid_above in Hid as [_ Hlt]. apply Forall_fmap in Hlt. exact Hlt.
  - apply liked_by_value_reads_back.
Qed.

Lemma opslaan_appends_recipe_witness :
  ∃ liked,
    opslaan {| new_name := py " Sla "; new_ing := py "krop sla "; new_instr := [];
               new_tags := py "snel"; new_selected_likers := [py "Ana"];
               new_likers_csv := py "ana, Bob" |} sample_db
    = {| db_after :=
           {| recipes := recipes sample_db ++
                         [{| r_id := 3%Z; r_name := py "Sla";
                             r_ingredients := Some (py "krop sla");
                             r_instructions := Some [];
                             r_tags := Some (py "snel");
                             r_liked_by := Some liked |}];
              meals := meals sample_db;
              seq_recipes := 3%Z;
              seq_meals := 3%Z |};
         form_after := {| new_name := py " Sla "; new_ing := py "krop sla ";
                          new_instr := []; new_tags := py "snel";
                          new_selected_likers := [py "Ana"];
                          new_likers_csv := py "ana, Bob" |};
         shown := [Success "Recept opgeslagen."];
         raised := Some StreamlitAPIException |}
    ∧ _split_csv (Some liked) = [py "Ana"; py "Bob"].
Proof.
  destruct (opslaan_appends_recipe latin1_lowercase
              {| new_name := py " Sla "; new_ing := py "krop sla "; new_instr := [];
                 new_tags := py "snel"; new_selected_likers := [py "Ana"];
                 new_likers_csv := py "ana, Bob" |} sample_db 3%Z)
    as (liked & Hrun & _ & _ & Hliked).
  - vm_compute. discriminate.
  - reflexivity.
  - exists liked. split; [exact Hrun|]. rewrite Hliked; [vm_compute; reflexivity|].
    apply Forall_cons. split; [|apply Forall_nil; exact I].
    intros Hin.
    repeat (apply elem_of_cons in Hin as [Hin|Hin]; [vm_compute in Hin; discriminate|]).
    exact (not_elem_of_nil _ Hin).
Defined.

(** X18: a click on "Opslaan wijzigingen" checks nothing: it leaves the ids
    and the meals, changes nothing for an id the table does not hold, and
    gives the row of the recipe the trimmed name even when that is empty;
    when no selected name holds a comma the stored [liked_by] reads back as
    the merged names. *)
Theorem opslaan_wijzigingen_overwrites :
  ∀ (L : Lowercase) (rid : Z) (f : edit_form) (db : database),
    (opslaan_wijzigingen rid f db).2 = Success "Recept bijgewerkt."
    ∧ r_id <$> recipes (opslaan_wijzigingen rid f db).1 = r_id <$> recipes db
    ∧ meals (opslaan_wijzigingen rid f db).1 = meals db
    ∧ (rid ∉ (r_id <$> recipes db) → (opslaan_wijzigingen rid f db).1 = db)
    ∧ ∀ row, row ∈ recipes (opslaan_wijzigingen rid f db).1 → r_id row = rid →
        r_name row = strip (edit_name f)
        ∧ ∃ liked, r_liked_by row = Some liked
                   ∧ (Forall (λ x, comma ∉ x) (edit_likers f) →
                      _split_csv (Some liked)
                      = _dedupe_keep_order
                          (edit_likers f ++ _split_csv (Some (edit_new_likers f)))).
Proof.
  intros L rid f db. unfold opslaan_wijzigingen. simpl.
  split; [reflexivity|]. split; [apply update_recipe_ids|]. split; [reflexivity|].
  split.
  - intros Hnot. destruct db as [rs ms sr sm].
    unfold update_recipe, update_recipe_row. simpl in *. f_equal.
    apply list_fmap_id_on. intros row Hrow.
    destruct (decide (r_id row = rid)) as [Heq|_]; [|reflexivity].
    exfalso. apply Hnot. apply list_elem_of_fmap. exists row. auto.
  - intros row Hrow Hid.
    unfold update_recipe, update_recipe_row in Hrow. simpl in Hrow.
    apply list_elem_of_fmap in Hrow as (old & -> & _).
    destruct (decide (r_id old = rid)) as [_|Hne]; [|contradiction].
    simpl. split; [reflexivity|]. eexists. split; [reflexivity|].
    apply liked_by_value_reads_back.
Qed.

Lemma opslaan_wijzigingen_overwrites_witness :
  r_name {| r_id := 1%Z; r_name := []; r_ingredients := Some (py "ui");
            r_instructions := Some []; r_tags := Some [];
            r_liked_by := Some (py "Bob, Ana") |}
  = strip (py "  ")
  ∧ ∃ liked,
      r_liked_by {| r_id := 1%Z; r_name := []; r_ingredients := Some (py "ui");
                    r_instructions := Some []; r_tags := Some [];
                    r_liked_by := Some (py "Bob, Ana") |} = Some liked
      ∧ (Forall (λ x, comma ∉ x) [py "Bob"] →
         _split_csv (Some liked)
         = _dedupe_keep_order (H := latin1_lowercase)
             ([py "Bob"] ++ _split_csv (Some (py "bob , Ana")))).
Proof.
  apply (proj2 (proj2 (proj2 (proj2
           (opslaan_wijzigingen_overwrites latin1_lowercase 1%Z
              {| edit_name := py "  "; edit_ing := py " ui"; edit_instr := [];
                 edit_tags := []; edit_likers := [py "Bob"];
                 edit_new_likers := py "bob , Ana" |} sample_db))))).
  - left.
  - reflexivity.
Defined.
